(** * Single-frame LiDAR segmentation: [src/algo/frame.py]

    A shallow embedding of class [Frame] (construction, gridding, ground
    detection, clustering, cluster growing, the data of the figure) and the
    properties its specification states.

    Conventions of the embedding.
    - A numpy [float64] array is a [list Q]: arithmetic and comparisons are
      exact.  A computation that numpy answers with [nan] or [inf] (division by
      zero, [arcsin] outside [-1, 1]) has no value here ([None]).
    - An integer array is a [list Z].  The narrowing stores of the source are
      written out: [astype(np.int16)] is defined on the int16 range only,
      a cluster id is stored in a [uint16] array modulo [2^16].  Differences of
      grid bins are int16 operations and wrap around.
    - A boolean mask is a [list bool], an index array ([np.where(m)[0]]) a
      [list nat]; the arrays of a frame are index aligned.
    - [self] is passed explicitly: every method maps a [Frame] to a [Frame],
      or to an [outcome] when the source can raise.
    - [np.sqrt], [np.arcsin] and [util.plane_fit] are not code of this file;
      they are the fields of the class [Externals]. *)

From Stdlib Require Import ZArith QArith Qround Qabs Qminmax Lia Lqa.
From stdpp Require Import base numbers list sorting.

Local Open Scope Z_scope.

(** ** Numbers *)

#[global] Instance Q_inhabited : Inhabited Q := populate 0%Q.

(** [a < b] on floats. *)
Definition Qltb (a b : Q) : bool := negb (Qle_bool b a).

(** [a >= b] on floats. *)
Definition Qgeb (a b : Q) : bool := Qle_bool b a.

(** [ndarray.clip(lo, hi)]: [minimum(maximum(v, lo), hi)]. *)
Definition np_clip (v lo hi : Q) : Q := Qmin (Qmax v lo) hi.

(** Rounding toward zero, the value conversion of a C cast. *)
Definition Qtrunc (q : Q) : Z := Z.quot (Qnum q) (Zpos (Qden q)).

(** [a / b] on floats; no value when numpy yields [nan] or [inf]. *)
Definition np_divide (a b : Q) : option Q :=
  if Qeq_bool b 0 then None else Some (a / b)%Q.

(** [.astype(np.int16)] of a finite float: truncation, defined when the result
    fits 16 signed bits. *)
Definition astype_int16 (q : Q) : option Z :=
  let v := Qtrunc q in
  if (-32768 <=? v) && (v <=? 32767) then Some v else None.

(** A Python integer stored into a [uint16] array. *)
Definition to_uint16 (v : Z) : Z := v mod 65536.

(** The value an int16 operation leaves when its result overflows. *)
Definition wrap_int16 (v : Z) : Z := (v + 32768) mod 65536 - 32768.

(** [np.abs(a - b) < 2] on two int16 values: the difference wraps, and so
    does its absolute value ([np.abs] of [-32768] is [-32768]). *)
Definition near_int16 (a b : Z) : bool :=
  wrap_int16 (Z.abs (wrap_int16 (a - b))) <? 2.

(** [np.abs(a - i) < 2] on an int16 value [a] and a Python int [i], a loop
    index: int16 arithmetic when [i] fits int16.  An index beyond int16
    widens the difference (the promotion of numpy 1; numpy 2 refuses such an
    operand). *)
Definition near_index (a i : Z) : bool :=
  if (-32768 <=? i) && (i <=? 32767) then near_int16 a i
  else Z.abs (a - i) <? 2.

(** ** Masks and index arrays *)

(** [np.where(m)[0]] *)
Definition np_where (m : list bool) : list nat :=
  filter (λ i, m !! i = Some true) (seq 0 (length m)).

(** [m.sum()] *)
Definition mask_sum (m : list bool) : Z := Z.of_nat (length (np_where m)).

(** [m1 & m2] *)
Definition mask_and (m1 m2 : list bool) : list bool := zip_with andb m1 m2.

(** [m1 | m2] *)
Definition mask_or (m1 m2 : list bool) : list bool := zip_with orb m1 m2.

(** [l[idx]] for an index array [idx] within bounds. *)
Definition take_at {A} `{Inhabited A} (l : list A) (idx : list nat) : list A :=
  (λ i, l !!! i) <$> idx.

(** [l[m]] for a mask [m] over a list aligned with it. *)
Definition compress {A} (m : list bool) (l : list A) : list A :=
  omap (λ bx : bool * A, if bx.1 then Some bx.2 else None) (zip m l).

(** [l[idx] = g(i, l[i])] for an index array without repetition. *)
Definition set_at {A} (idx : list nat) (g : nat → A → A) (l : list A) : list A :=
  imap (λ i a, if decide (i ∈ idx) then g i a else a) l.

(** [l[m] = v] for a mask [m]. *)
Definition mask_assign {A} (m : list bool) (v : A) (l : list A) : list A :=
  imap (λ i a, if decide (m !! i = Some true) then v else a) l.

(** [l.min()] and [l.max()]: no value on an empty array. *)
Definition np_min (l : list Z) : option Z :=
  match l with [] => None | v :: l' => Some (foldl Z.min v l') end.

Definition np_max (l : list Z) : option Z :=
  match l with [] => None | v :: l' => Some (foldl Z.max v l') end.

(** [range(a, b)] *)
Definition py_range (a b : Z) : list Z := seqZ a (b - a).

(** ** Outcomes of a method that can raise *)

Inductive exn : Set :=
| EmptyReduction   (* ValueError: zero-size array to reduction operation *)
| ZeroStep         (* np.arange with a step of zero *)
| UndefinedCast.   (* nan, inf or an out-of-range float converted to int16 *)

Inductive outcome (A : Type) : Type :=
| Ok (a : A)
| Error (e : exn).
Arguments Ok {A} a.
Arguments Error {A} e.

Definition obind {A B} (m : outcome A) (k : A → outcome B) : outcome B :=
  match m with Ok a => k a | Error e => Error e end.

Notation "'do' x <- m ; k" := (obind m (λ x, k))
  (at level 10, x name, m at level 100, k at level 200).

Definition of_option {A} (e : exn) (o : option A) : outcome A :=
  match o with Some a => Ok a | None => Error e end.

(** [np.arange(start, stop, step)] on floats: [ceil((stop - start) / step)]
    values [start + k * step]. *)
Definition np_arange (start stop step : Q) : outcome (list Q) :=
  if Qeq_bool step 0 then Error ZeroStep
  else Ok ((λ k : nat, start + inject_Z (Z.of_nat k) * step)%Q
             <$> seq 0 (Z.to_nat (Qceiling ((stop - start) / step)))).

(** ** Configuration and frame *)

Record Config : Type := {
  max_theta : Q;
  theta_grid_size : Q;
  min_dist : Q;
  dist_grid_size : Q;
  n_dist_grids : Z;
  n_angular_grids : Z;
  dz_local : Q;
  dz_global : Q;
  max_slope : Q;
  min_grd_pts : Z;
  min_samples : Z;
  base_h_cut : Q;
  h_max_cut : Q;
  h_grid_size : Q;
  lidar_height : Q
}.

(** The same configuration with another [dz_global]. *)
Definition with_dz_global (c : Config) (g : Q) : Config :=
  {| max_theta := max_theta c; theta_grid_size := theta_grid_size c;
     min_dist := min_dist c; dist_grid_size := dist_grid_size c;
     n_dist_grids := n_dist_grids c; n_angular_grids := n_angular_grids c;
     dz_local := dz_local c; dz_global := g; max_slope := max_slope c;
     min_grd_pts := min_grd_pts c; min_samples := min_samples c;
     base_h_cut := base_h_cut c; h_max_cut := h_max_cut c;
     h_grid_size := h_grid_size c; lidar_height := lidar_height c |}.

(** A row of [pos]. *)
Definition Vec3 : Type := Q * Q * Q.
Definition vx (p : Vec3) : Q := p.1.1.
Definition vy (p : Vec3) : Q := p.1.2.
Definition vz (p : Vec3) : Q := p.2.

(** An element of the input batch [pts]. *)
Record RawPoint : Type := {
  raw_x : Q; raw_y : Q; raw_z : Q; raw_r : Q; invalid : bool
}.

Definition _IS_NOISE : Z := 1.
Definition _IS_GROUND : Z := 2.
Definition _IS_BKG : Z := 4.
Definition _IS_VEHCLE : Z := 8.
Definition _IS_SIGN : Z := 16.
Definition _IS_PED : Z := 32.
Definition _IS_BIKER : Z := 64.

Record Frame : Type := {
  cfg : Config;
  n_points : nat;
  pos : list Vec3;
  intensities : list Q;
  h_arr : list Q;
  distXY : list Q;
  flags : list Z;          (* uint8 *)
  cid_arr : list Z;        (* uint16 *)
  grd_par : Vec3;
  theta : list Q;
  x_idx : list Z;          (* int16 *)
  y_idx : list Z           (* int16 *)
}.

Definition set_grid (f : Frame) (th : list Q) (xs ys : list Z) : Frame :=
  {| cfg := cfg f; n_points := n_points f; pos := pos f;
     intensities := intensities f; h_arr := h_arr f; distXY := distXY f;
     flags := flags f; cid_arr := cid_arr f; grd_par := grd_par f;
     theta := th; x_idx := xs; y_idx := ys |}.

Definition set_ground (f : Frame) (h : list Q) (fl : list Z) : Frame :=
  {| cfg := cfg f; n_points := n_points f; pos := pos f;
     intensities := intensities f; h_arr := h; distXY := distXY f;
     flags := fl; cid_arr := cid_arr f; grd_par := grd_par f;
     theta := theta f; x_idx := x_idx f; y_idx := y_idx f |}.

Definition set_cid_arr (f : Frame) (c : list Z) : Frame :=
  {| cfg := cfg f; n_points := n_points f; pos := pos f;
     intensities := intensities f; h_arr := h_arr f; distXY := distXY f;
     flags := flags f; cid_arr := c; grd_par := grd_par f;
     theta := theta f; x_idx := x_idx f; y_idx := y_idx f |}.

Definition set_cfg (f : Frame) (c : Config) : Frame :=
  {| cfg := c; n_points := n_points f; pos := pos f;
     intensities := intensities f; h_arr := h_arr f; distXY := distXY f;
     flags := flags f; cid_arr := cid_arr f; grd_par := grd_par f;
     theta := theta f; x_idx := x_idx f; y_idx := y_idx f |}.

(** The arrays of a gridded frame hold one entry per point. *)
Definition aligned (f : Frame) : Prop :=
  length (pos f) = n_points f ∧ length (distXY f) = n_points f
  ∧ length (h_arr f) = n_points f ∧ length (flags f) = n_points f
  ∧ length (cid_arr f) = n_points f
  ∧ length (x_idx f) = n_points f ∧ length (y_idx f) = n_points f.

(** The collaborators of the class: numpy's square root and arc sine on
    finite arguments of their domain, and the plane fit of module [util]
    (coefficients [(a, b, c)] of [z = a x + b y + c]). *)
Class Externals : Type := {
  np_sqrt : Q → Q;
  np_arcsin : Q → Q;
  plane_fit : list Vec3 → Vec3
}.

(** ** The methods of [Frame] *)

Section Methods.
Context `{Externals}.

(** [Frame.__init__]: the invalid points are dropped up front. *)
Definition Frame_init (pts : list RawPoint) (c : Config) : Frame :=
  let valid := filter (λ p, invalid p = false) pts in
  let xyz := (λ p, (raw_x p, raw_y p, raw_z p)) <$> valid in
  {| cfg := c;
     n_points := length valid;
     pos := xyz;
     intensities := raw_r <$> valid;
     h_arr := replicate (length valid) 0%Q;
     distXY := (λ p, np_sqrt (vx p * vx p + vy p * vy p)%Q) <$> xyz;
     flags := replicate (length valid) 0;
     cid_arr := replicate (length valid) 0;
     grd_par := (0%Q, 0%Q, (- lidar_height c)%Q);
     theta := []; x_idx := []; y_idx := [] |}.

(** *** Gridding *)

(** [np.arcsin(x / d)]: [nan] when the quotient is not finite or lies
    outside [-1, 1]. *)
Definition theta_of (x d : Q) : option Q :=
  r ← np_divide x d;
  if Qle_bool (-1) r && Qle_bool r 1 then Some (np_arcsin r) else None.

(** One element of [x_idx]. *)
Definition angular_bin (c : Config) (x d : Q) : option Z :=
  t ← theta_of x d;
  q ← np_divide (t + max_theta c) (theta_grid_size c);
  astype_int16 q.

(** One element of [y_idx]. *)
Definition range_bin (c : Config) (d : Q) : option Z :=
  q ← np_divide (d - min_dist c) (dist_grid_size c);
  astype_int16 q.

Definition gridding (f : Frame) : outcome Frame :=
  let pd := zip (pos f) (distXY f) in
  match mapM (λ a : Vec3 * Q, theta_of (vx a.1) a.2) pd,
        mapM (λ a : Vec3 * Q, angular_bin (cfg f) (vx a.1) a.2) pd,
        mapM (range_bin (cfg f)) (distXY f) with
  | Some th, Some xs, Some ys => Ok (set_grid f th xs ys)
  | _, _, _ => Error UndefinedCast
  end.

(** *** Ground detection *)

(** The mask of line 49: potential ground points. *)
Definition grd_candidates_mask (f : Frame) : list bool :=
  zip_with
    (λ p d, Qltb (Qabs (vz p + lidar_height (cfg f)))
                 (np_clip (d * max_slope (cfg f))
                          (dz_local (cfg f)) (dz_global (cfg f))))
    (pos f) (distXY f).

Definition grd_candidates (f : Frame) : list nat :=
  np_where (grd_candidates_mask f).

(** [z - a x - b y - c] *)
Definition plane_height (par : Vec3) (p : Vec3) : Q :=
  (vz p - vx par * vx p - vy par * vy p - vz par)%Q.

Definition has_ground (v : Z) : bool := 0 <? Z.land v _IS_GROUND.

(** Lines 47 to 60: global fit, default heights, seed ground points. *)
Definition ground_detection_global (f : Frame) : Frame :=
  let flags0 := replicate (n_points f) 0 in
  let cand := grd_candidates f in
  let par := plane_fit (take_at (pos f) cand) in
  let h := plane_height par <$> pos f in
  let seed_grd := (λ hv, Qltb hv (dz_local (cfg f))) <$> take_at h cand in
  set_ground f h
    (set_at (compress seed_grd cand) (λ _ v, Z.lor v _IS_GROUND) flags0).

(** Points of the 3x3 neighbourhood of a cell that carry the ground bit. *)
Definition to_fit_idx (f : Frame) (nearby_y : list bool) (ix : Z) : list nat :=
  let nearby_x := (λ xi, near_index xi ix) <$> x_idx f in
  let nearby_idx := np_where (mask_and nearby_x nearby_y) in
  compress (has_ground <$> take_at (flags f) nearby_idx) nearby_idx.

(** The local plane of a cell, slopes clipped. *)
Definition local_par (f : Frame) (fit : list nat) : Vec3 :=
  let par := plane_fit (take_at (pos f) fit) in
  let s := max_slope (cfg f) in
  (np_clip (vx par) (- s) s, np_clip (vy par) (- s) s, vz par).

(** [z - (x, y) @ par[:2] - par[2]] *)
Definition local_height (par : Vec3) (p : Vec3) : Q :=
  (vz p - (vx p * vx par + vy p * vy par) - vz par)%Q.

Definition on_plane (c : Config) (hv : Q) : bool :=
  Qltb (- dz_global c) hv && Qltb hv (dz_local c).

(** [self.y_idx == iy] and [np.abs(self.y_idx - iy) < 2] *)
Definition in_y_mask (f : Frame) (iy : Z) : list bool :=
  (λ yi, yi =? iy) <$> y_idx f.

Definition nearby_y_mask (f : Frame) (iy : Z) : list bool :=
  (λ yi, near_index yi iy) <$> y_idx f.

(** The points strictly inside the cell. *)
Definition local_idx (f : Frame) (in_y : list bool) (ix : Z) : list nat :=
  np_where (mask_and ((λ xi, xi =? ix) <$> x_idx f) in_y).

(** Lines 69 to 91: the body of the inner loop. *)
Definition refine_cell (in_y nearby_y : list bool) (f : Frame) (ix : Z) : Frame :=
  let fit := to_fit_idx f nearby_y ix in
  if Z.of_nat (length fit) <? min_grd_pts (cfg f) then f
  else
    let par := local_par f fit in
    let idx := local_idx f in_y ix in
    let h := set_at idx
               (λ i old, from_option (local_height par) old (pos f !! i))
               (h_arr f) in
    let on_local_plane := on_plane (cfg f) <$> take_at h idx in
    let fl0 := set_at (compress (negb <$> on_local_plane) idx)
                 (λ _ _, 0) (flags f) in
    let fl1 := set_at (compress on_local_plane idx)
                 (λ _ v, Z.lor v _IS_GROUND) fl0 in
    set_ground f h fl1.

(** Lines 64 to 68: one range row. *)
Definition refine_row (f : Frame) (iy : Z) : Frame :=
  let in_y := in_y_mask f iy in
  if mask_sum in_y <? min_grd_pts (cfg f) then f
  else
    foldl (refine_cell in_y (nearby_y_mask f iy)) f
          (py_range 0 (n_angular_grids (cfg f))).

Definition ground_detection (f : Frame) : Frame :=
  foldl refine_row (ground_detection_global f)
        (py_range 0 (n_dist_grids (cfg f))).

(** Number of points carrying the ground bit. *)
Definition ground_count (f : Frame) : nat :=
  length (filter (λ v, has_ground v = true) (flags f)).

(** *** Clustering *)

(** The height band of line 100. *)
Definition h_cut_mask (f : Frame) : list bool :=
  (λ h, Qltb h (base_h_cut (cfg f)) && Qgeb h (dz_local (cfg f))) <$> h_arr f.

(** [(idx >= i - 1) & (idx <= i)] *)
Definition in_pair (i : Z) (idx : list Z) : list bool :=
  (λ v, (i - 1 <=? v) && (v <=? i)) <$> idx.

(** The points of the 2x2 block [[ix-1, ix] x [iy-1, iy]] in the band. *)
Definition in_grid_mask (f : Frame) (ix iy : Z) : list bool :=
  let h_cut := h_cut_mask f in
  mask_and (mask_and (in_pair ix (x_idx f)) h_cut)
           (mask_and (in_pair iy (y_idx f)) h_cut).

(** Lines 107 to 119: the body of the inner loop, on the state
    [(cid_arr, next_cid)]. *)
Definition cluster_block (f : Frame) (ix : Z) (st : list Z * Z) (iy : Z)
  : list Z * Z :=
  let in_grid := in_grid_mask f ix iy in
  let grid_samples := mask_sum in_grid in
  if grid_samples <? 1 then st
  else
    let cid := default 0 (np_max (compress in_grid st.1)) in
    if 0 <? cid then (mask_assign in_grid cid st.1, st.2)
    else if min_samples (cfg f) <=? grid_samples
         then (mask_assign in_grid (to_uint16 st.2) st.1, st.2 + 1)
         else st.

(** Lines 102 to 106: one angular index of the outer loop. *)
Definition cluster_row (f : Frame) (ys : list Z) (st : list Z * Z) (ix : Z)
  : list Z * Z :=
  let in_x := mask_and (in_pair ix (x_idx f)) (h_cut_mask f) in
  if mask_sum in_x <? 1 then st
  else foldl (cluster_block f ix) st ys.

(** The two index ranges of the sweep; the extrema of an empty array raise.
    (The arrays of a frame are aligned: [y_idx] is empty when [x_idx] is.) *)
Definition sweep_ranges (f : Frame) : outcome (list Z * list Z) :=
  do xmin <- of_option EmptyReduction (np_min (x_idx f));
  do xmax <- of_option EmptyReduction (np_max (x_idx f));
  do ymin <- of_option EmptyReduction (np_min (y_idx f));
  do ymax <- of_option EmptyReduction (np_max (y_idx f));
  Ok (py_range (xmin + 1) xmax, py_range (ymin + 1) ymax).

Definition clustering_state (f : Frame) (xs ys : list Z) : list Z * Z :=
  foldl (cluster_row f ys) (replicate (n_points f) 0, 1) xs.

Definition clustering (f : Frame) : outcome Frame :=
  do r <- sweep_ranges f;
  Ok (set_cid_arr f (clustering_state f r.1 r.2).1).

(** The blocks in the order the two loops visit them, and the loops as one
    pass over them. *)
Definition sweep_blocks (xs ys : list Z) : list (Z * Z) :=
  ix ← xs; (λ iy, (ix, iy)) <$> ys.

Definition sweep (f : Frame) (st : list Z * Z) (blocks : list (Z * Z))
  : list Z * Z :=
  foldl (λ st b, cluster_block f b.1 st b.2) st blocks.

(** The values of [next_cid] handed out along a pass: a block allocates when
    it advances the counter. *)
Fixpoint issued (f : Frame) (st : list Z * Z) (blocks : list (Z * Z))
  : list Z :=
  match blocks with
  | [] => []
  | b :: bs =>
      let st' := cluster_block f b.1 st b.2 in
      (if st'.2 =? st.2 then [] else [st.2]) ++ issued f st' bs
  end.

(** *** Cluster growing *)

Definition connect_layer (f : Frame) : list bool :=
  (λ h, Qltb (base_h_cut (cfg f) - dz_global (cfg f)) h) <$> h_arr f.

(** [np.c_[x_idx, y_idx]] *)
Definition grid_indices (f : Frame) : list (Z * Z) := zip (x_idx f) (y_idx f).

(** Row order of [np.unique(_, axis=0)]. *)
Definition lex_le (a b : Z * Z) : Prop :=
  a.1 < b.1 ∨ (a.1 = b.1 ∧ a.2 <= b.2).

#[global] Instance lex_le_dec a b : Decision (lex_le a b).
Proof. unfold lex_le. apply _. Defined.

(** [np.unique(rows, axis=0)]: the distinct rows, sorted. *)
Definition np_unique (rows : list (Z * Z)) : list (Z * Z) :=
  merge_sort lex_le (remove_dups rows).

(** The layer [[h0, h0 + h_grid_size)] of line 137. *)
Definition in_layer_mask (f : Frame) (h0 : Q) : list bool :=
  (λ h, Qgeb h h0 && Qltb h (h0 + h_grid_size (cfg f))) <$> h_arr f.

(** Line 141: the layer points near the grid cell [g], a row of the int16
    array [grids]. *)
Definition nearby_mask (f : Frame) (in_layer : list bool) (g : Z * Z)
  : list bool :=
  mask_and (mask_and ((λ xi, near_int16 xi g.1) <$> x_idx f)
                     ((λ yi, near_int16 yi g.2) <$> y_idx f))
           in_layer.

(** Lines 139 to 145, on the state [(cid_arr, sel_arr)].  The label [cid] is
    at most [cid_arr.max()], so it fits the [uint16] array. *)
Definition grow_cell (f : Frame) (cid : Z) (in_layer : list bool)
    (st : list Z * list bool) (g : Z * Z) : list Z * list bool :=
  let nearby := nearby_mask f in_layer g in
  (mask_assign nearby cid st.1, mask_or st.2 nearby).

(** Lines 137 to 145: one height layer. *)
Definition grow_layer (f : Frame) (cid : Z) (grids : list (Z * Z))
    (cids : list Z) (h0 : Q) : list Z * list bool :=
  foldl (grow_cell f cid (in_layer_mask f h0))
        (cids, replicate (length cids) false) grids.

(** Lines 136 to 151: the layers from the bottom, until one selects nothing. *)
Fixpoint grow_layers (f : Frame) (cid : Z) (grids : list (Z * Z))
    (layers : list Q) (cids : list Z) : list Z :=
  match layers with
  | [] => cids
  | h0 :: rest =>
      let r := grow_layer f cid grids cids h0 in
      if mask_sum r.2 <? 1 then r.1
      else grow_layers f cid (np_unique (compress r.2 (grid_indices f)))
                       rest r.1
  end.

Definition seeds_mask (f : Frame) (cids : list Z) (cid : Z) : list bool :=
  mask_and (connect_layer f) ((λ c, c =? cid) <$> cids).

(** Lines 129 to 151: one cluster id. *)
Definition grow_cid (f : Frame) (cids : list Z) (cid : Z) : outcome (list Z) :=
  let seeds := seeds_mask f cids cid in
  if mask_sum seeds <? 1 then Ok cids
  else
    do layers <- np_arange (base_h_cut (cfg f)) (h_max_cut (cfg f))
                           (h_grid_size (cfg f));
    Ok (grow_layers f cid (np_unique (compress seeds (grid_indices f)))
                    layers cids).

Definition grow_cids (f : Frame) (cids : list Z) (ids : list Z)
  : outcome (list Z) :=
  foldl (λ st cid, do c <- st; grow_cid f c cid) (Ok cids) ids.

Definition grow_cluster (f : Frame) : outcome Frame :=
  do cmax <- of_option EmptyReduction (np_max (cid_arr f));
  do cids <- grow_cids f (cid_arr f) (py_range 1 (cmax + 1));
  Ok (set_cid_arr f cids).

End Methods.

(** ** What [visualize] hands to the plotting library *)

(** One scatter trace: the points drawn and the count shown in its name. *)
Record Trace : Type := { trace_pos : list Vec3; trace_count : Z }.

(** The figure: its traces and the count shown in its title. *)
Record Figure : Type := { fig_data : list Trace; fig_title_count : nat }.

(** [self.flags & _IS_GROUND > 0] *)
Definition is_grd_mask (f : Frame) : list bool := has_ground <$> flags f.

(** [self.h_arr >= self.cfg["dz_local"]] *)
Definition abv_grd_mask (f : Frame) : list bool :=
  (λ h, Qgeb h (dz_local (cfg f))) <$> h_arr f.

(** Lines 158 to 170, without the rendering: [None] is the IndexError of a
    boolean index whose length differs from the number of rows of [pos]. *)
Definition visualize (f : Frame) : option Figure :=
  let is_grd := is_grd_mask f in
  let abv_grd := abv_grd_mask f in
  if ((length is_grd =? length (pos f))%nat
      && (length abv_grd =? length (pos f))%nat)%bool
  then Some {| fig_data :=
                 [ {| trace_pos := compress is_grd (pos f);
                      trace_count := mask_sum is_grd |};
                   {| trace_pos := compress abv_grd (pos f);
                      trace_count := mask_sum abv_grd |} ];
               fig_title_count := n_points f |}
  else None.

(** ** A least-squares plane fit *)

Definition sumQ (l : list Q) : Q := foldr Qplus 0%Q l.

Definition det3 (a11 a12 a13 a21 a22 a23 a31 a32 a33 : Q) : Q :=
  (a11 * (a22 * a33 - a23 * a32) - a12 * (a21 * a33 - a23 * a31)
   + a13 * (a21 * a32 - a22 * a31))%Q.

(** Modelled from the spec: [util.plane_fit] is not among the sources.  The
    specification describes it as the plane [z = a x + b y + c] that minimises
    the sum of the squared residuals [z - a x - b y - c]; this is the solution
    of the normal equations, by Cramer's rule.  The specification leaves the
    result open when the points do not determine a plane; the zero plane
    stands for it here. *)
Definition plane_fit_ls (pts : list Vec3) : Vec3 :=
  let sxx := sumQ ((λ p, vx p * vx p)%Q <$> pts) in
  let sxy := sumQ ((λ p, vx p * vy p)%Q <$> pts) in
  let syy := sumQ ((λ p, vy p * vy p)%Q <$> pts) in
  let sx := sumQ (vx <$> pts) in
  let sy := sumQ (vy <$> pts) in
  let sxz := sumQ ((λ p, vx p * vz p)%Q <$> pts) in
  let syz := sumQ ((λ p, vy p * vz p)%Q <$> pts) in
  let sz := sumQ (vz <$> pts) in
  let n := inject_Z (Z.of_nat (length pts)) in
  let d := det3 sxx sxy sx sxy syy sy sx sy n in
  if Qeq_bool d 0 then (0%Q, 0%Q, 0%Q)
  else (Qred (det3 sxz sxy sx syz syy sy sz sy n / d),
        Qred (det3 sxx sxz sx sxy syz sy sx sz n / d),
        Qred (det3 sxx sxy sxz sxy syy syz sx sy sz / d)).

(** ** Predicates of the statements *)

(** Some point of the block carries a cluster id. *)
Definition block_labelled (m : list bool) (cids : list Z) : Prop :=
  ∃ i c, m !! i = Some true ∧ cids !! i = Some c ∧ c ≠ 0.

(** [cmax] is the largest cluster id carried in the block. *)
Definition block_max (m : list bool) (cids : list Z) (cmax : Z) : Prop :=
  (∃ i, m !! i = Some true ∧ cids !! i = Some cmax)
  ∧ ∀ i c, m !! i = Some true → cids !! i = Some c → c <= cmax.

(** What every state of a pass satisfies: the ids are below the counter, and
    a labelled point lies in the height band. *)
Definition sweep_inv (f : Frame) (st : list Z * Z) : Prop :=
  length st.1 = n_points f
  ∧ 1 <= st.2
  ∧ Forall (λ c, 0 <= c < st.2) st.1
  ∧ ∀ i c, st.1 !! i = Some c → c ≠ 0 → h_cut_mask f !! i = Some true.

(** What [near_int16] comes to on two bins of the int16 range: at most one
    bin apart, or [32768] or [65535] bins apart, where the difference or its
    absolute value overflows. *)
Definition bins_near (a b : Z) : Prop :=
  Z.abs (a - b) <= 1 ∨ Z.abs (a - b) = 32768 ∨ Z.abs (a - b) = 65535.

(** A point of the layer that the int16 test of line 141 finds within one
    bin of the cell [g] on both axes. *)
Definition near_cell (f : Frame) (h0 : Q) (g : Z * Z) (i : nat) : Prop :=
  ∃ x y h, x_idx f !! i = Some x ∧ y_idx f !! i = Some y
    ∧ h_arr f !! i = Some h
    ∧ near_int16 x g.1 = true ∧ near_int16 y g.2 = true
    ∧ (h0 <= h)%Q ∧ (h < h0 + h_grid_size (cfg f))%Q.

(** A point of the layer near some cell of the footprint. *)
Definition selected (f : Frame) (h0 : Q) (grids : list (Z * Z)) (i : nat) : Prop :=
  ∃ g, g ∈ grids ∧ near_cell f h0 g i.

(** The distinct cells occupied by the points that satisfy [P]. *)
Definition footprint (f : Frame) (P : nat → Prop) (grids : list (Z * Z)) : Prop :=
  NoDup grids
  ∧ ∀ g, g ∈ grids ↔ ∃ i, P i ∧ x_idx f !! i = Some g.1 ∧ y_idx f !! i = Some g.2.

(** A seed of [cid]: a point that carries it above the connecting height. *)
Definition seed (f : Frame) (cids : list Z) (cid : Z) (i : nat) : Prop :=
  cids !! i = Some cid
  ∧ ∃ h, h_arr f !! i = Some h
       ∧ (base_h_cut (cfg f) - dz_global (cfg f) < h)%Q.

(** The bottoms of the layers: [base_h_cut + k * h_grid_size] for the first
    [ceil((h_max_cut - base_h_cut) / h_grid_size)] values of [k]. *)
Definition layer_starts (f : Frame) (layers : list Q) : Prop :=
  ¬ (h_grid_size (cfg f) == 0)%Q
  ∧ length layers
    = Z.to_nat (Qceiling ((h_max_cut (cfg f) - base_h_cut (cfg f))
                          / h_grid_size (cfg f)))
  ∧ ∀ (k : nat) h0, layers !! k = Some h0 →
      h0 = (base_h_cut (cfg f)
            + inject_Z (Z.of_nat k) * h_grid_size (cfg f))%Q.

(** [cids'] is [cids] with the id [cid] on the points that satisfy [P]. *)
Definition relabelled (P : nat → Prop) (cid : Z) (cids cids' : list Z) : Prop :=
  length cids' = length cids
  ∧ ∀ i, (P i → cids' !! i = Some cid) ∧ (¬ P i → cids' !! i = cids !! i).

(** The growth of one id through the layers, from the footprint [grids]: it
    ends with the last layer or at the first layer that selects no point;
    a layer that selects points labels them and hands their cells on. *)
Inductive grown_layers (f : Frame) (cid : Z)
  : list (Z * Z) → list Q → list Z → list Z → Prop :=
| grown_top grids cids : grown_layers f cid grids [] cids cids
| grown_stop grids h0 rest cids :
    (∀ i, ¬ selected f h0 grids i) →
    grown_layers f cid grids (h0 :: rest) cids cids
| grown_next grids h0 rest cids cids1 grids1 cids' :
    (∃ i, selected f h0 grids i) →
    relabelled (selected f h0 grids) cid cids cids1 →
    footprint f (selected f h0 grids) grids1 →
    grown_layers f cid grids1 rest cids1 cids' →
    grown_layers f cid grids (h0 :: rest) cids cids'.

(** The ids in turn: an id without seeds is skipped, the others grow from
    the cells of their seeds. *)
Inductive grown_ids (f : Frame) : list Z → list Z → list Z → Prop :=
| grown_nil cids : grown_ids f [] cids cids
| grown_skip cid ids cids cids' :
    (∀ i, ¬ seed f cids cid i) →
    grown_ids f ids cids cids' →
    grown_ids f (cid :: ids) cids cids'
| grown_cid cid ids cids grids layers cids1 cids' :
    (∃ i, seed f cids cid i) →
    footprint f (seed f cids cid) grids →
    layer_starts f layers →
    grown_layers f cid grids layers cids cids1 →
    grown_ids f ids cids1 cids' →
    grown_ids f (cid :: ids) cids cids'.

(** The cell [(x, y)] is visited by the local phase of ground detection: both
    indices lie in the configured grid and the range row [y] holds at least
    [min_grd_pts] points. *)
Definition refinable (f : Frame) (x y : Z) : Prop :=
  0 <= x < n_angular_grids (cfg f) ∧ 0 <= y < n_dist_grids (cfg f)
  ∧ min_grd_pts (cfg f) <= mask_sum (in_y_mask f y).

(** [g] has the configuration and the grid bins of [f]. *)
Definition same_grid (f g : Frame) : Prop :=
  cfg g = cfg f ∧ x_idx g = x_idx f ∧ y_idx g = y_idx f.

(** The height of point [i] lies in one of the layers the grower visits. *)
Definition in_some_layer (f : Frame) (i : nat) : Prop :=
  ∃ layers h0,
    np_arange (base_h_cut (cfg f)) (h_max_cut (cfg f)) (h_grid_size (cfg f))
    = Ok layers
    ∧ h0 ∈ layers ∧ in_layer_mask f h0 !! i = Some true.

(** The values [v] that land in bin [k] of a grid of cell size [size]
    starting at [off]: the cells are half open away from zero, and bin [0]
    spans one cell on either side of [off]. *)
Definition bin_cell (off size v : Q) (k : Z) : Prop :=
  (1 <= k ∧ (off + inject_Z k * size <= v)%Q
          ∧ (v < off + (inject_Z k + 1) * size)%Q)
  ∨ (k = 0 ∧ (off - size < v)%Q ∧ (v < off + size)%Q)
  ∨ (k <= -1 ∧ (off + (inject_Z k - 1) * size < v)%Q
             ∧ (v <= off + inject_Z k * size)%Q).

(** ** Example data *)

(** Stand-ins for numpy's functions in the examples below (the theorems hold
    for every instance of [Externals]): a square root that is exact on the
    squares of rationals, and the cubic Taylor polynomial of the arc sine. *)
Definition sqrt_approx (q : Q) : Q := Z.sqrt (Qnum q) # Pos.sqrt (Qden q).

Definition arcsin_approx (r : Q) : Q := (r + r * r * r / 6)%Q.

Definition demo_ext : Externals :=
  {| np_sqrt := sqrt_approx; np_arcsin := arcsin_approx;
     plane_fit := plane_fit_ls |}.

Definition raw (x y z : Q) (bad : bool) : RawPoint :=
  {| raw_x := x; raw_y := y; raw_z := z; raw_r := 1; invalid := bad |}.

(** A sensor two units above flat ground: six returns on the ground near the
    sensor, two returns one unit below it at range 4, one invalid return. *)
Definition demo_cfg : Config := {|
  max_theta := 2; theta_grid_size := 1; min_dist := 0; dist_grid_size := 1;
  n_dist_grids := 8; n_angular_grids := 4;
  dz_local := 1 # 8; dz_global := 1; max_slope := 1;
  min_grd_pts := 100; min_samples := 2;
  base_h_cut := 1; h_max_cut := 3; h_grid_size := 1; lidar_height := 2 |}.

Definition demo_pts : list RawPoint :=
  [raw 1 0 (-2) false; raw (-1) 0 (-2) false; raw 0 1 (-2) false;
   raw 0 (-1) (-2) false; raw 9 9 9 true; raw 0 2 (-2) false;
   raw 0 (-2) (-2) false; raw 4 0 (-3) false; raw (-4) 0 (-3) false].

Definition demo_frame0 : Frame := @Frame_init demo_ext demo_pts demo_cfg.

(** [demo_frame0] after gridding. *)
Definition demo_frame : Frame :=
  Eval vm_compute in
    match @gridding demo_ext demo_frame0 with
    | Ok f => f
    | Error _ => demo_frame0
    end.

(** The same frame with a local fit from three ground points on. *)
Definition demo_frame3 : Frame :=
  set_cfg demo_frame
    {| max_theta := 2; theta_grid_size := 1; min_dist := 0;
       dist_grid_size := 1; n_dist_grids := 8; n_angular_grids := 4;
       dz_local := 1 # 8; dz_global := 1; max_slope := 1;
       min_grd_pts := 3; min_samples := 2;
       base_h_cut := 1; h_max_cut := 3; h_grid_size := 1;
       lidar_height := 2 |}.

(** A configuration whose nearest range bin starts beyond a return. *)
Definition near_cfg : Config := {|
  max_theta := 2; theta_grid_size := 1; min_dist := 2; dist_grid_size := 2;
  n_dist_grids := 8; n_angular_grids := 4;
  dz_local := 1 # 8; dz_global := 1; max_slope := 1;
  min_grd_pts := 3; min_samples := 2;
  base_h_cut := 1; h_max_cut := 3; h_grid_size := 1; lidar_height := 2 |}.

(** A frame after ground detection: two pairs of points in the clustering
    band two cells apart (points 0 to 3), one point above the band in the cell
    between them (point 4), two ground points at the corners of the grid. *)
Definition cluster_frame : Frame := {|
  cfg := {| max_theta := 2; theta_grid_size := 1; min_dist := 0;
            dist_grid_size := 1; n_dist_grids := 8; n_angular_grids := 4;
            dz_local := 1 # 8; dz_global := 1 # 2; max_slope := 1;
            min_grd_pts := 3; min_samples := 2;
            base_h_cut := 1; h_max_cut := 3; h_grid_size := 1;
            lidar_height := 2 |};
  n_points := 7;
  pos := replicate 7 (0, 0, 0)%Q; intensities := replicate 7 1%Q;
  h_arr := [3 # 4; 5 # 8; 3 # 4; 3 # 4; 5 # 4; 0; 0]%Q;
  distXY := replicate 7 1%Q; flags := [0; 0; 0; 0; 0; 2; 2];
  cid_arr := replicate 7 0; grd_par := (0, 0, -2)%Q;
  theta := replicate 7 0%Q;
  x_idx := [1; 1; 3; 3; 2; 0; 5]; y_idx := [1; 1; 1; 1; 1; 0; 3] |}.

(** [cluster_frame] after clustering. *)
Definition clustered_frame : Frame :=
  set_cid_arr cluster_frame [1; 1; 2; 2; 0; 0; 0].

(** [clustered_frame] under a configuration with layers of height zero. *)
Definition zero_step_frame : Frame :=
  set_cfg clustered_frame
    {| max_theta := 2; theta_grid_size := 1; min_dist := 0;
       dist_grid_size := 1; n_dist_grids := 8; n_angular_grids := 4;
       dz_local := 1 # 8; dz_global := 1 # 2; max_slope := 1;
       min_grd_pts := 3; min_samples := 2;
       base_h_cut := 1; h_max_cut := 3; h_grid_size := 0;
       lidar_height := 2 |}.

(** [demo_frame0] under a configuration with range cells of size zero. *)
Definition zero_cell_frame : Frame :=
  set_cfg demo_frame0
    {| max_theta := 2; theta_grid_size := 1; min_dist := 0;
       dist_grid_size := 0; n_dist_grids := 8; n_angular_grids := 4;
       dz_local := 1 # 8; dz_global := 1; max_slope := 1;
       min_grd_pts := 3; min_samples := 2;
       base_h_cut := 1; h_max_cut := 3; h_grid_size := 1;
       lidar_height := 2 |}.

(** The returns of [demo_pts] and an object above the ground: two returns
    at height 7/8 and one at height 3/2 in the same grid cell. *)
Definition scene_pts : list RawPoint :=
  demo_pts ++ [raw 0 2 (-9 # 8) false; raw 0 (-2) (-9 # 8) false;
               raw 0 2 (-1 # 2) false].

Definition scene_cfg : Config := with_dz_global demo_cfg (1 # 4).

(** [scene_pts] after gridding. *)
Definition scene_frame : Frame :=
  Eval vm_compute in
    match @gridding demo_ext (@Frame_init demo_ext scene_pts scene_cfg) with
    | Ok f => f
    | Error _ => @Frame_init demo_ext scene_pts scene_cfg
    end.

(** [scene_frame] after ground detection and clustering. *)
Definition scene_clustered : Frame :=
  set_cid_arr (@ground_detection demo_ext scene_frame)
    [0; 0; 0; 0; 0; 0; 0; 0; 1; 1; 0].

(** [clustered_frame] with its labelled points below the connecting layer. *)
Definition low_frame : Frame :=
  set_ground clustered_frame [1 # 4; 1 # 4; 1 # 4; 1 # 4; 5 # 4; 0; 0]%Q
    (flags clustered_frame).

(** A clustered frame in a grid whose range bins start at [32768.5]: two
    labelled points in range bin 0 and, one layer up, an unlabelled point at
    range [0.5], in range bin [-32768]. *)
Definition far_frame : Frame := {|
  cfg := {| max_theta := 2; theta_grid_size := 1; min_dist := 65537 # 2;
            dist_grid_size := 1; n_dist_grids := 8; n_angular_grids := 4;
            dz_local := 1 # 8; dz_global := 1 # 2; max_slope := 1;
            min_grd_pts := 3; min_samples := 2;
            base_h_cut := 1; h_max_cut := 3; h_grid_size := 1;
            lidar_height := 2 |};
  n_points := 3;
  pos := [(0, 32769, -5 # 4); (0, 32769, -5 # 4); (0, 1 # 2, -3 # 4)]%Q;
  intensities := replicate 3 1%Q;
  h_arr := [3 # 4; 3 # 4; 5 # 4]%Q;
  distXY := [32769; 32769; 1 # 2]%Q; flags := [0; 0; 0];
  cid_arr := [1; 1; 0]; grd_par := (0, 0, -2)%Q;
  theta := replicate 3 0%Q;
  x_idx := [2; 2; 2]; y_idx := [0; 0; -32768] |}.

(** * Properties *)

(** ** Numbers, masks and index arrays *)

Lemma Qltb_lt (a b : Q) : Qltb a b = true ↔ (a < b)%Q.
Proof.
  unfold Qltb. rewrite negb_true_iff, <- not_true_iff_false, Qle_bool_iff.
  split; [apply Qnot_le_lt | apply Qlt_not_le].
Qed.

Lemma Qgeb_le (a b : Q) : Qgeb a b = true ↔ (b <= a)%Q.
Proof. unfold Qgeb. apply Qle_bool_iff. Qed.

Lemma elem_of_np_where (m : list bool) (i : nat) :
  i ∈ np_where m ↔ m !! i = Some true.
Proof.
  unfold np_where. rewrite list_elem_of_filter, elem_of_seq.
  split; [tauto |]. intros Hi. split; [done |].
  apply lookup_lt_Some in Hi. lia.
Qed.

Lemma NoDup_np_where (m : list bool) : NoDup (np_where m).
Proof. apply NoDup_filter, NoDup_seq. Qed.

Lemma mask_sum_lt_1 (m : list bool) :
  (mask_sum m <? 1) = true ↔ ∀ i, m !! i ≠ Some true.
Proof.
  unfold mask_sum. rewrite Z.ltb_lt. split.
  - intros Hlen i Hi. apply elem_of_np_where in Hi.
    destruct (np_where m); [by apply elem_of_nil in Hi | simpl in Hlen; lia].
  - intros Hno. destruct (np_where m) as [|i l] eqn:E; [simpl; lia |].
    exfalso. apply (Hno i), elem_of_np_where. rewrite E. left.
Qed.

Lemma mask_sum_ge_1 (m : list bool) :
  (mask_sum m <? 1) = false ↔ ∃ i, m !! i = Some true.
Proof.
  unfold mask_sum. rewrite Z.ltb_ge. split.
  - destruct (np_where m) as [|i l] eqn:E; [simpl; lia |].
    intros _. exists i. apply elem_of_np_where. rewrite E. left.
  - intros [i Hi]. apply elem_of_np_where in Hi.
    destruct (np_where m); [by apply elem_of_nil in Hi | simpl; lia].
Qed.

Lemma lookup_mask_and (m1 m2 : list bool) (i : nat) :
  mask_and m1 m2 !! i = Some true ↔ m1 !! i = Some true ∧ m2 !! i = Some true.
Proof.
  unfold mask_and. rewrite lookup_zip_with.
  destruct (m1 !! i) as [[]|], (m2 !! i) as [[]|]; simpl; intuition congruence.
Qed.

Lemma lookup_set_at {A} (idx : list nat) (g : nat → A → A) (l : list A) i :
  set_at idx g l !! i = (λ a, if decide (i ∈ idx) then g i a else a) <$> l !! i.
Proof. unfold set_at. apply list_lookup_imap. Qed.

Lemma length_set_at {A} (idx : list nat) (g : nat → A → A) (l : list A) :
  length (set_at idx g l) = length l.
Proof. apply length_imap. Qed.

Lemma lookup_mask_assign {A} (m : list bool) (v : A) (l : list A) i :
  mask_assign m v l !! i
  = (λ a, if decide (m !! i = Some true) then v else a) <$> l !! i.
Proof. unfold mask_assign. apply list_lookup_imap. Qed.

Lemma lookup_mask_assign_in {A} (m : list bool) (v a : A) (l : list A) i :
  m !! i = Some true → l !! i = Some a → mask_assign m v l !! i = Some v.
Proof.
  intros Hm Hl. rewrite lookup_mask_assign, Hl. simpl.
  by rewrite decide_True.
Qed.

Lemma lookup_mask_assign_out {A} (m : list bool) (v : A) (l : list A) i :
  m !! i ≠ Some true → mask_assign m v l !! i = l !! i.
Proof.
  intros Hm. rewrite lookup_mask_assign.
  destruct (l !! i); [| done]. simpl. by rewrite decide_False.
Qed.

Lemma length_mask_assign {A} (m : list bool) (v : A) (l : list A) :
  length (mask_assign m v l) = length l.
Proof. apply length_imap. Qed.

Lemma elem_of_compress {A} (m : list bool) (l : list A) (x : A) :
  x ∈ compress m l ↔ ∃ k, m !! k = Some true ∧ l !! k = Some x.
Proof.
  unfold compress. rewrite list_elem_of_omap. split.
  - intros [[b a] [Hin Hb]]. simpl in Hb. destruct b; [|done].
    injection Hb as ->. apply list_elem_of_lookup in Hin as [k Hk].
    exists k. rewrite lookup_zip_with in Hk.
    destruct (m !! k) as [b|]; [|done]. simpl in Hk.
    destruct (l !! k) as [a|]; [|done]. simpl in Hk. by injection Hk as -> ->.
  - intros (k & Hm & Hl). exists (true, x). split; [|done].
    apply list_elem_of_lookup. exists k.
    rewrite lookup_zip_with, Hm. simpl. by rewrite Hl.
Qed.

Lemma lookup_take_at {A} `{Inhabited A} (l : list A) (idx : list nat) k :
  take_at l idx !! k = (λ i, l !!! i) <$> idx !! k.
Proof. unfold take_at. apply list_lookup_fmap. Qed.

(** Selecting the indices of [idx] whose element satisfies a test. *)
Lemma elem_of_compress_test {A} `{Inhabited A} (P : A → bool) (l : list A)
    (idx : list nat) (i : nat) :
  i ∈ compress (P <$> take_at l idx) idx ↔ i ∈ idx ∧ P (l !!! i) = true.
Proof.
  rewrite elem_of_compress. split.
  - intros (k & Hm & Hk). rewrite list_lookup_fmap, lookup_take_at, Hk in Hm.
    simpl in Hm. split; [by eapply list_elem_of_lookup_2 | congruence].
  - intros [Hin HP]. apply list_elem_of_lookup in Hin as [k Hk]. exists k.
    split; [|done]. rewrite list_lookup_fmap, lookup_take_at, Hk. simpl.
    by rewrite HP.
Qed.

(** ** Ground detection *)

Section GroundGlobal.
Context `{Externals}.

(** C1.  Phase A of the ground estimator, for every point [i] of the frame:
    [i] is a ground candidate exactly when
    [|z + lidar_height| < clip(distXY * max_slope, dz_local, dz_global)];
    with [(a, b, c)] the plane fitted to the candidates, its height becomes
    [z - a x - b y - c], candidate or not; and its ground bit is set exactly
    when it is a candidate whose height is below [dz_local]. *)
Theorem ground_global_spec (f : Frame) (i : nat) (p : Vec3) (d : Q) :
  pos f !! i = Some p → distXY f !! i = Some d → (i < n_points f)%nat →
  let g := ground_detection_global f in
  let par := plane_fit (take_at (pos f) (grd_candidates f)) in
  let hv := (vz p - vx par * vx p - vy par * vy p - vz par)%Q in
  (i ∈ grd_candidates f ↔
     (Qabs (vz p + lidar_height (cfg f))
      < np_clip (d * max_slope (cfg f)) (dz_local (cfg f)) (dz_global (cfg f)))%Q)
  ∧ h_arr g !! i = Some hv
  ∧ ∃ v, flags g !! i = Some v
       ∧ (has_ground v = true ↔
            i ∈ grd_candidates f ∧ (hv < dz_local (cfg f))%Q).
Proof.
  intros Hp Hd Hn g par hv.
  assert (Hh : (plane_height par <$> pos f) !! i = Some hv).
  { by rewrite list_lookup_fmap, Hp. }
  split; [|split].
  - unfold grd_candidates. rewrite elem_of_np_where.
    unfold grd_candidates_mask. rewrite lookup_zip_with, Hp. simpl.
    rewrite Hd. simpl. rewrite <- Qltb_lt.
    split; [by intros [= ->] | by intros ->].
  - exact Hh.
  - unfold g, ground_detection_global. simpl.
    rewrite lookup_set_at, lookup_replicate_2 by done. simpl.
    eexists. split; [reflexivity |].
    rewrite <- Qltb_lt.
    pose proof (elem_of_compress_test
                  (λ hv, Qltb hv (dz_local (cfg f)))
                  (plane_height par <$> pos f) (grd_candidates f) i) as Hsel.
    rewrite (list_lookup_total_correct _ _ _ Hh) in Hsel.
    fold par. destruct (decide _) as [Hin | Hout].
    + split; [intros _; by apply Hsel | done].
    + split; [done | intros Hc; destruct Hout; by apply Hsel].
Qed.
End GroundGlobal.

Lemma has_ground_lor (v : Z) : has_ground (Z.lor v _IS_GROUND) = true.
Proof.
  unfold has_ground.
  replace (Z.land (Z.lor v _IS_GROUND) _IS_GROUND) with _IS_GROUND; [done |].
  apply Z.bits_inj'. intros n _.
  rewrite Z.land_spec, Z.lor_spec.
  by destruct (Z.testbit v n), (Z.testbit _IS_GROUND n).
Qed.

Lemma on_plane_iff (c : Config) (hv : Q) :
  on_plane c hv = true ↔ (- dz_global c < hv)%Q ∧ (hv < dz_local c)%Q.
Proof. unfold on_plane. by rewrite andb_true_iff, !Qltb_lt. Qed.

Lemma elem_of_local_idx (f : Frame) (ix iy : Z) (i : nat) :
  i ∈ local_idx f (in_y_mask f iy) ix
  ↔ x_idx f !! i = Some ix ∧ y_idx f !! i = Some iy.
Proof.
  unfold local_idx, in_y_mask.
  rewrite elem_of_np_where, lookup_mask_and, !list_lookup_fmap.
  destruct (x_idx f !! i) as [x|], (y_idx f !! i) as [y|]; simpl;
    try (split; intros [? ?]; congruence).
  split.
  - intros [[= Hx%Z.eqb_eq] [= Hy%Z.eqb_eq]]. by subst.
  - intros [[= ->] [= ->]]. by rewrite !Z.eqb_refl.
Qed.

Section GroundLocal.
Context `{Externals}.

(** The neighbourhood test of lines 67 and 69 wraps: a point of bin [-32768]
    counts as a neighbour of the rows 0 and 32767, not of row 1. *)
Example near_index_wraps :
  near_index (-32768) 0 = true ∧ near_index (-32768) 32767 = true
  ∧ near_index (-32768) 1 = false ∧ near_index 3 4 = true
  ∧ near_index 3 5 = false.
Proof. vm_compute. done. Qed.

(** C2.  When Phase B refines the cell [(ix, iy)] (its neighbourhood, taken
    by the int16 tests [|bin - i| < 2] of lines 67 and 69, holds at least
    [min_grd_pts] ground points), every point [i] strictly inside the cell
    gets the height [hv] above the local plane fitted to these ground points;
    if [hv] lies in [(-dz_global, dz_local)] its ground bit is set (the other
    bits stay), and otherwise its whole flags byte becomes zero. *)
Theorem refine_cell_spec (f : Frame) (ix iy : Z) (i : nat) (p : Vec3)
    (h0 : Q) (v0 : Z) :
  let fit := to_fit_idx f (nearby_y_mask f iy) ix in
  let g := refine_cell (in_y_mask f iy) (nearby_y_mask f iy) f ix in
  let hv := local_height (local_par f fit) p in
  min_grd_pts (cfg f) <= Z.of_nat (length fit) →
  x_idx f !! i = Some ix → y_idx f !! i = Some iy →
  pos f !! i = Some p → h_arr f !! i = Some h0 → flags f !! i = Some v0 →
  h_arr g !! i = Some hv
  ∧ ((- dz_global (cfg f) < hv)%Q ∧ (hv < dz_local (cfg f))%Q →
       flags g !! i = Some (Z.lor v0 _IS_GROUND)
       ∧ has_ground (Z.lor v0 _IS_GROUND) = true)
  ∧ (¬ ((- dz_global (cfg f) < hv)%Q ∧ (hv < dz_local (cfg f))%Q) →
       flags g !! i = Some 0).
Proof.
  intros fit g hv Hfit Hx Hy Hp Hh Hv.
  assert (Hin : i ∈ local_idx f (in_y_mask f iy) ix).
  { by apply elem_of_local_idx. }
  unfold g, refine_cell. fold fit.
  apply Z.ltb_ge in Hfit. rewrite Hfit. simpl.
  set (h := set_at _ _ (h_arr f)).
  assert (Hh' : h !! i = Some hv).
  { unfold h. rewrite lookup_set_at, Hh. simpl.
    rewrite decide_True by done. by rewrite Hp. }
  split; [done |].
  rewrite <- list_fmap_compose.
  pose proof (elem_of_compress_test (on_plane (cfg f)) h
                (local_idx f (in_y_mask f iy) ix) i) as Hon.
  pose proof (elem_of_compress_test (negb ∘ on_plane (cfg f)) h
                (local_idx f (in_y_mask f iy) ix) i) as Hoff.
  rewrite (list_lookup_total_correct _ _ _ Hh') in Hon, Hoff. simpl in Hoff.
  rewrite <- on_plane_iff, !lookup_set_at, Hv. simpl.
  split.
  - intros Hw. split; [| apply has_ground_lor].
    rewrite decide_True by (apply Hon; done).
    rewrite decide_False; [done |].
    intros [_ Hn]%Hoff. by rewrite Hw in Hn.
  - intros Hw%not_true_is_false.
    rewrite decide_False by (intros [_ Hn]%Hon; congruence).
    rewrite decide_True; [done |]. apply Hoff. by rewrite Hw.
Qed.
End GroundLocal.

(** ** Clustering *)

Lemma foldl_max_spec (l : list Z) (v : Z) :
  foldl Z.max v l ∈ v :: l ∧ ∀ x, x ∈ v :: l → x <= foldl Z.max v l.
Proof.
  revert v. induction l as [|a l IH]; intros v; simpl.
  - split; [left |]. intros x ->%list_elem_of_singleton. lia.
  - destruct (IH (Z.max v a)) as [Hin Hle]. split.
    + apply elem_of_cons in Hin as [Heq | Hin]; [| by do 2 right].
      rewrite Heq. destruct (Z.max_spec v a) as [[_ ->] | [_ ->]];
        [right; left | left].
    + intros x Hx. apply elem_of_cons in Hx as [-> | Hx].
      * etrans; [| apply Hle; left]. lia.
      * apply elem_of_cons in Hx as [-> | Hx].
        -- etrans; [| apply Hle; left]. lia.
        -- apply Hle. by right.
Qed.

Lemma np_max_spec (l : list Z) (x0 : Z) :
  x0 ∈ l → ∃ v, np_max l = Some v ∧ v ∈ l ∧ ∀ x, x ∈ l → x <= v.
Proof.
  destruct l as [|a l]; [by intros ?%elem_of_nil |]. intros _.
  exists (foldl Z.max a l). split; [done |]. apply foldl_max_spec.
Qed.

Lemma foldl_min_spec (l : list Z) (v : Z) :
  foldl Z.min v l ∈ v :: l ∧ ∀ x, x ∈ v :: l → foldl Z.min v l <= x.
Proof.
  revert v. induction l as [|a l IH]; intros v; simpl.
  - split; [left |]. intros x ->%list_elem_of_singleton. lia.
  - destruct (IH (Z.min v a)) as [Hin Hle]. split.
    + apply elem_of_cons in Hin as [Heq | Hin]; [| by do 2 right].
      rewrite Heq. destruct (Z.min_spec v a) as [[_ ->] | [_ ->]];
        [left | right; left].
    + intros x Hx. apply elem_of_cons in Hx as [-> | Hx].
      * etrans; [apply Hle; left |]. lia.
      * apply elem_of_cons in Hx as [-> | Hx].
        -- etrans; [apply Hle; left |]. lia.
        -- apply Hle. by right.
Qed.

Lemma lookup_in_pair (i : Z) (idx : list Z) (k : nat) :
  in_pair i idx !! k = Some true
  ↔ ∃ v, idx !! k = Some v ∧ (v = i - 1 ∨ v = i).
Proof.
  unfold in_pair. rewrite list_lookup_fmap.
  destruct (idx !! k) as [v|]; simpl;
    [| split; [done | by intros (? & ? & ?)]].
  split.
  - intros [= Hb]. exists v. split; [done |]. lia.
  - intros (? & [= <-] & Hv). f_equal. lia.
Qed.

Lemma lookup_h_cut_mask (f : Frame) (k : nat) :
  h_cut_mask f !! k = Some true
  ↔ ∃ h, h_arr f !! k = Some h
       ∧ (dz_local (cfg f) <= h)%Q ∧ (h < base_h_cut (cfg f))%Q.
Proof.
  unfold h_cut_mask. rewrite list_lookup_fmap.
  destruct (h_arr f !! k) as [h|]; simpl;
    [| split; [done | by intros (? & ? & ?)]].
  split.
  - intros [= [Hlt%Qltb_lt Hge%Qgeb_le]%andb_true_iff]. eauto.
  - intros (? & [= <-] & Hge%Qgeb_le & Hlt%Qltb_lt). by rewrite Hge, Hlt.
Qed.

(** Membership of a point in the block of [(ix, iy)]. *)
Lemma lookup_in_grid_mask (f : Frame) (ix iy : Z) (k : nat) :
  in_grid_mask f ix iy !! k = Some true
  ↔ (∃ x, x_idx f !! k = Some x ∧ (x = ix - 1 ∨ x = ix))
    ∧ (∃ y, y_idx f !! k = Some y ∧ (y = iy - 1 ∨ y = iy))
    ∧ h_cut_mask f !! k = Some true.
Proof.
  unfold in_grid_mask.
  rewrite !lookup_mask_and, !lookup_in_pair. tauto.
Qed.

Lemma cluster_block_outside (f : Frame) (ix iy : Z) (st : list Z * Z) (i : nat) :
  in_grid_mask f ix iy !! i ≠ Some true →
  (cluster_block f ix st iy).1 !! i = st.1 !! i.
Proof.
  intros Hout. unfold cluster_block.
  destruct (mask_sum _ <? 1); [done |].
  destruct (0 <? _); [| destruct (min_samples _ <=? _); [| done]];
    cbn [fst]; by rewrite lookup_mask_assign_out.
Qed.

Lemma length_cluster_block (f : Frame) (ix iy : Z) (st : list Z * Z) :
  length (cluster_block f ix st iy).1 = length st.1.
Proof.
  unfold cluster_block.
  destruct (mask_sum _ <? 1); [done |].
  destruct (0 <? _); [| destruct (min_samples _ <=? _); [| done]];
    apply length_mask_assign.
Qed.



Lemma cluster_block_cases (f : Frame) (ix iy : Z) (cids : list Z) (next : Z) :
  let m := in_grid_mask f ix iy in
  let st' := cluster_block f ix (cids, next) iy in
  (∀ i, m !! i = Some true → is_Some (cids !! i)) →
  Forall (λ c, 0 <= c) cids →
  (block_labelled m cids →
     ∃ cmax, block_max m cids cmax
       ∧ (∀ i, m !! i = Some true → st'.1 !! i = Some cmax)
       ∧ st'.2 = next)
  ∧ (¬ block_labelled m cids →
       (1 <= mask_sum m → min_samples (cfg f) <= mask_sum m →
          (∀ i, m !! i = Some true → st'.1 !! i = Some (to_uint16 next))
          ∧ st'.2 = next + 1)
       ∧ (mask_sum m < 1 ∨ mask_sum m < min_samples (cfg f) →
            st' = (cids, next))).
Proof.
  intros m st' Hal Hpos. unfold st', cluster_block. fold m. cbn [fst snd].
  destruct (mask_sum m <? 1) eqn:Hemp.
  { pose proof (proj1 (mask_sum_lt_1 m) Hemp) as Hno.
    apply Z.ltb_lt in Hemp. split.
    - intros (i & c & Hi & _). by destruct (Hno i).
    - intros _. split; [lia | done]. }
  apply mask_sum_ge_1 in Hemp as [i0 Hi0]. 
  destruct (Hal i0 Hi0) as [c0 Hc0].
  assert (Hc0in : c0 ∈ compress m cids) by (apply elem_of_compress; eauto).
  destruct (np_max_spec _ _ Hc0in) as (cmax & -> & Hin & Hmax).
  unfold default; cbn [from_option id].
  apply elem_of_compress in Hin as (imax & Himax & Hcmax).
  assert (Hbm : block_max m cids cmax).
  { split; [eauto |]. intros i c Hi Hc. apply Hmax, elem_of_compress. eauto. }
  assert (Hge : 1 <= mask_sum m).
  { apply Z.ltb_ge, mask_sum_ge_1. eauto. }
  destruct (0 <? cmax) eqn:Hlab.
  - apply Z.ltb_lt in Hlab. split.
    + intros _. exists cmax. split; [done |]. split; [| done].
      intros i Hi. destruct (Hal i Hi) as [c Hc].
      by eapply lookup_mask_assign_in.
    + intros []. exists imax, cmax. repeat split; [done.. | lia].
  - apply Z.ltb_ge in Hlab. split.
    + intros (i & c & Hi & Hc & Hne). exfalso.
      pose proof (proj2 Hbm i c Hi Hc).
      apply list_elem_of_lookup_2 in Hc.
      rewrite Forall_forall in Hpos. specialize (Hpos c Hc). lia.
    + intros _. destruct (min_samples (cfg f) <=? mask_sum m) eqn:Hocc.
      * apply Z.leb_le in Hocc. split; [| lia]. intros _ _.
        split; [| done]. intros i Hi. destruct (Hal i Hi) as [c Hc].
        by eapply lookup_mask_assign_in.
      * apply Z.leb_gt in Hocc. split; [lia | done].
Qed.

Lemma Forall_mask_assign {A} (P : A → Prop) (m : list bool) (v : A) (l : list A) :
  P v → Forall P l → Forall P (mask_assign m v l).
Proof.
  intros Hv Hl. apply Forall_lookup. intros i x.
  rewrite lookup_mask_assign. destruct (l !! i) as [a|] eqn:Ha; [| done].
  simpl. intros [= <-]. destruct (decide _); [done |].
  by eapply (proj1 (Forall_lookup P l)).
Qed.

Lemma cluster_block_empty (f : Frame) (ix iy : Z) (st : list Z * Z) :
  (∀ i, in_grid_mask f ix iy !! i ≠ Some true) →
  cluster_block f ix st iy = st.
Proof.
  intros Hno%mask_sum_lt_1. unfold cluster_block. by rewrite Hno.
Qed.

Lemma cluster_row_sweep (f : Frame) (ys : list Z) (st : list Z * Z) (ix : Z) :
  cluster_row f ys st ix = sweep f st ((λ iy, (ix, iy)) <$> ys).
Proof.
  unfold cluster_row, sweep.
  destruct (mask_sum _ <? 1) eqn:Hemp.
  - pose proof (proj1 (mask_sum_lt_1 _) Hemp) as Hno. clear Hemp.
    induction ys as [|iy ys IH]; [done |]. simpl.
    rewrite cluster_block_empty; [done |].
    intros i Hi. apply (Hno i). unfold in_grid_mask in Hi.
    by apply lookup_mask_and in Hi as [Hi _].
  - revert st. induction ys as [|iy ys IH]; intros st; [done |]. simpl.
    apply IH.
Qed.

Lemma sweep_app (f : Frame) (st : list Z * Z) (b1 b2 : list (Z * Z)) :
  sweep f st (b1 ++ b2) = sweep f (sweep f st b1) b2.
Proof. apply foldl_app. Qed.

(** The nested loops visit the blocks of [sweep_blocks] in order. *)
Lemma clustering_state_sweep (f : Frame) (xs ys : list Z) :
  clustering_state f xs ys
  = sweep f (replicate (n_points f) 0, 1) (sweep_blocks xs ys).
Proof.
  unfold clustering_state. generalize (replicate (n_points f) 0, 1).
  induction xs as [|ix xs IH]; intros st; [done |].
  unfold sweep_blocks. simpl. rewrite sweep_app, <- cluster_row_sweep.
  apply IH.
Qed.

Lemma cluster_block_next (f : Frame) (ix iy : Z) (st : list Z * Z) :
  (cluster_block f ix st iy).2 = st.2
  ∨ (cluster_block f ix st iy).2 = st.2 + 1.
Proof.
  unfold cluster_block.
  destruct (mask_sum _ <? 1); [by left |].
  destruct (0 <? _); [by left |].
  destruct (min_samples _ <=? _); [by right | by left].
Qed.

(** The counter values handed out along a pass are consecutive. *)
Lemma issued_consecutive (f : Frame) (blocks : list (Z * Z)) (st : list Z * Z) :
  issued f st blocks = seqZ st.2 (Z.of_nat (length (issued f st blocks)))
  ∧ (sweep f st blocks).2 = st.2 + Z.of_nat (length (issued f st blocks)).
Proof.
  revert st. induction blocks as [|b bs IH]; intros st.
  - simpl. split; [done | lia].
  - cbn [issued sweep foldl]. 
    destruct (IH (cluster_block f b.1 st b.2)) as [IH1 IH2].
    fold (sweep f (cluster_block f b.1 st b.2) bs).
    set (st' := cluster_block f b.1 st b.2) in *.
    destruct (cluster_block_next f b.1 b.2 st) as [Hn | Hn]; fold st' in Hn.
    + rewrite Hn, Z.eqb_refl in *. simpl. rewrite <- Hn. done.
    + destruct (st'.2 =? st.2) eqn:Heq; [apply Z.eqb_eq in Heq; lia |].
      rewrite length_app. cbn [length Nat.add].
      rewrite Nat2Z.inj_succ, <- Z.add_1_r.
      rewrite (seqZ_cons st.2) by lia. split.
      * simpl. f_equal. rewrite IH1 at 1. rewrite Hn. f_equal; lia.
      * rewrite IH2, Hn. lia.
Qed.

Lemma np_max_elem (l : list Z) (v : Z) : np_max l = Some v → v ∈ l.
Proof.
  destruct l as [|a l]; [done |]. intros [= <-]. apply foldl_max_spec.
Qed.

Lemma elem_of_py_range (a b v : Z) : v ∈ py_range a b ↔ a <= v < b.
Proof. unfold py_range. rewrite elem_of_seqZ. lia. Qed.

Lemma elem_of_sweep_blocks (xs ys : list Z) (ix iy : Z) :
  (ix, iy) ∈ sweep_blocks xs ys ↔ ix ∈ xs ∧ iy ∈ ys.
Proof.
  unfold sweep_blocks. rewrite list_elem_of_bind. split.
  - intros (x & Hin & Hx). apply list_elem_of_fmap in Hin as (y & [= -> ->] & Hy).
    done.
  - intros [Hx Hy]. exists ix. split; [| done].
    apply list_elem_of_fmap. eauto.
Qed.


Lemma sweep_inv_init (f : Frame) : sweep_inv f (replicate (n_points f) 0, 1).
Proof.
  repeat split; simpl; try lia.
  - apply length_replicate.
  - apply Forall_replicate. lia.
  - intros i c [-> _]%lookup_replicate. done.
Qed.

Lemma sweep_inv_block (f : Frame) (ix iy : Z) (st : list Z * Z) :
  sweep_inv f st → sweep_inv f (cluster_block f ix st iy).
Proof.
  intros (Hlen & Hnext & Hrange & Hband).
  split; [by rewrite length_cluster_block |].
  assert (Hb : ∀ i c, (cluster_block f ix st iy).1 !! i = Some c → c ≠ 0 →
                      h_cut_mask f !! i = Some true).
  { intros i c Hc Hne.
    destruct (decide (in_grid_mask f ix iy !! i = Some true)) as [Hin | Hout].
    - by apply lookup_in_grid_mask in Hin as (_ & _ & ?).
    - rewrite cluster_block_outside in Hc by done. eauto. }
  revert Hb. unfold cluster_block.
  destruct (mask_sum _ <? 1); [done |].
  destruct (np_max _) as [cmax|] eqn:Hmax; unfold default; cbn [from_option id].
  - destruct (0 <? cmax) eqn:Hlab.
    + intros Hb. repeat split; try done. cbn [fst snd].
      apply Forall_mask_assign; [| done].
      apply np_max_elem, elem_of_compress in Hmax as (k & _ & Hk).
      apply list_elem_of_lookup_2 in Hk.
      rewrite Forall_forall in Hrange. by apply Hrange.
    + destruct (min_samples _ <=? _); [| done].
      intros Hb. repeat split; cbn [fst snd]; try done; [lia |].
      apply Forall_mask_assign.
      * unfold to_uint16. pose proof (Z.mod_pos_bound st.2 65536).
        pose proof (Z.mod_le st.2 65536). lia.
      * eapply Forall_impl; [done |]. simpl. lia.
  - simpl. destruct (min_samples _ <=? _); [| done].
    intros Hb. repeat split; cbn [fst snd]; try done; [lia |].
    apply Forall_mask_assign.
    + unfold to_uint16. pose proof (Z.mod_pos_bound st.2 65536).
      pose proof (Z.mod_le st.2 65536). lia.
    + eapply Forall_impl; [done |]. simpl. lia.
Qed.

Lemma sweep_inv_sweep (f : Frame) (blocks : list (Z * Z)) (st : list Z * Z) :
  sweep_inv f st → sweep_inv f (sweep f st blocks).
Proof.
  revert st. induction blocks as [|b bs IH]; intros st Hst; [done |].
  simpl. apply IH. by apply sweep_inv_block.
Qed.

Lemma sweep_ranges_Ok (f : Frame) (r : list Z * list Z) :
  sweep_ranges f = Ok r →
  ∃ xmin xmax ymin ymax,
    np_min (x_idx f) = Some xmin ∧ np_max (x_idx f) = Some xmax
    ∧ np_min (y_idx f) = Some ymin ∧ np_max (y_idx f) = Some ymax
    ∧ r = (py_range (xmin + 1) xmax, py_range (ymin + 1) ymax).
Proof.
  unfold sweep_ranges.
  destruct (np_min (x_idx f)) as [xmin|]; [| done].
  destruct (np_max (x_idx f)) as [xmax|]; [| done].
  destruct (np_min (y_idx f)) as [ymin|]; [| done].
  destruct (np_max (y_idx f)) as [ymax|]; [| done].
  simpl. intros [= <-]. by exists xmin, xmax, ymin, ymax.
Qed.

Lemma clustering_Ok (f f' : Frame) :
  clustering f = Ok f' →
  ∃ r, sweep_ranges f = Ok r
     ∧ f' = set_cid_arr f (sweep f (replicate (n_points f) 0, 1)
                                 (sweep_blocks r.1 r.2)).1.
Proof.
  unfold clustering. destruct (sweep_ranges f) as [r|]; [| done].
  simpl. intros [= <-]. exists r. by rewrite clustering_state_sweep.
Qed.

(** A block advances the counter only when it holds at least one point and
    at least [min_samples] points, none of them labelled, and then stores the
    counter value in every point of the block. *)
Lemma cluster_block_alloc (f : Frame) (ix iy : Z) (st : list Z * Z) :
  (cluster_block f ix st iy).2 ≠ st.2 →
  (∃ i, in_grid_mask f ix iy !! i = Some true)
  ∧ min_samples (cfg f) <= mask_sum (in_grid_mask f ix iy)
  ∧ cluster_block f ix st iy
    = (mask_assign (in_grid_mask f ix iy) (to_uint16 st.2) st.1, st.2 + 1).
Proof.
  unfold cluster_block.
  destruct (mask_sum _ <? 1) eqn:Hemp; [done |].
  apply mask_sum_ge_1 in Hemp.
  destruct (0 <? _); [done |].
  destruct (min_samples _ <=? _) eqn:Hocc; [| done].
  apply Z.leb_le in Hocc. done.
Qed.


Lemma issued_app (f : Frame) (st : list Z * Z) (b1 b2 : list (Z * Z)) :
  issued f st (b1 ++ b2) = issued f st b1 ++ issued f (sweep f st b1) b2.
Proof.
  revert st. induction b1 as [|b bs IH]; intros st; [done |].
  cbn [app issued]. rewrite IH, <- app_assoc. done.
Qed.





(** ** Cluster growing *)

Lemma lookup_mask_or (m1 m2 : list bool) (i : nat) :
  mask_or m1 m2 !! i = Some true
  ↔ is_Some (m1 !! i) ∧ is_Some (m2 !! i)
    ∧ (m1 !! i = Some true ∨ m2 !! i = Some true).
Proof.
  unfold mask_or. rewrite lookup_zip_with.
  destruct (m1 !! i) as [[]|], (m2 !! i) as [[]|]; simpl;
    split; try done; try (intros _; eauto; fail);
    try (by intros ([] & [] & [|])); try (by intros ([] & [] & _)).
Qed.

Lemma length_mask_or (m1 m2 : list bool) :
  length m1 = length m2 → length (mask_or m1 m2) = length m1.
Proof. intros Hl. unfold mask_or. rewrite length_zip_with. lia. Qed.

Lemma length_mask_and (m1 m2 : list bool) :
  length (mask_and m1 m2) = (length m1 `min` length m2)%nat.
Proof. apply length_zip_with. Qed.


Lemma lookup_in_layer_mask (f : Frame) (h0 : Q) (i : nat) :
  in_layer_mask f h0 !! i = Some true
  ↔ ∃ h, h_arr f !! i = Some h
       ∧ (h0 <= h)%Q ∧ (h < h0 + h_grid_size (cfg f))%Q.
Proof.
  unfold in_layer_mask. rewrite list_lookup_fmap.
  destruct (h_arr f !! i) as [h|]; simpl;
    [| split; [done | by intros (? & ? & ?)]].
  split.
  - intros [= [Hge%Qgeb_le Hlt%Qltb_lt]%andb_true_iff]. eauto.
  - intros (? & [= <-] & Hge%Qgeb_le & Hlt%Qltb_lt). by rewrite Hge, Hlt.
Qed.

Lemma lookup_nearby_mask (f : Frame) (h0 : Q) (g : Z * Z) (i : nat) :
  nearby_mask f (in_layer_mask f h0) g !! i = Some true ↔ near_cell f h0 g i.
Proof.
  unfold nearby_mask, near_cell.
  rewrite !lookup_mask_and, lookup_in_layer_mask, !list_lookup_fmap.
  destruct (x_idx f !! i) as [x|], (y_idx f !! i) as [y|]; simpl;
    try (split; [by intros [[? ?] ?] | by intros (? & ? & ? & ? & ? & ?)]).
  split.
  - intros [[[= Hx] [= Hy]] (h & Hh & Hlo & Hhi)].
    exists x, y, h. repeat split; done.
  - intros (? & ? & h & [= <-] & [= <-] & Hh & Hx & Hy & Hlo & Hhi).
    repeat split; [by f_equal.. | eauto].
Qed.

Lemma length_nearby_mask (f : Frame) (h0 : Q) (g : Z * Z) :
  aligned f → length (nearby_mask f (in_layer_mask f h0) g) = n_points f.
Proof.
  intros (_ & _ & Hh & _ & _ & Hx & Hy). unfold nearby_mask, in_layer_mask.
  rewrite !length_mask_and, !length_fmap. lia.
Qed.


Lemma grow_layer_snoc (f : Frame) (cid : Z) (grids : list (Z * Z)) (g : Z * Z)
    (cids : list Z) (h0 : Q) :
  grow_layer f cid (grids ++ [g]) cids h0
  = grow_cell f cid (in_layer_mask f h0) (grow_layer f cid grids cids h0) g.
Proof. unfold grow_layer. by rewrite foldl_app. Qed.

Lemma grow_layer_spec (f : Frame) (cid : Z) (grids : list (Z * Z))
    (cids : list Z) (h0 : Q) :
  aligned f → length cids = n_points f →
  let r := grow_layer f cid grids cids h0 in
  length r.1 = n_points f ∧ length r.2 = n_points f
  ∧ (∀ i, r.2 !! i = Some true ↔ selected f h0 grids i)
  ∧ (∀ i, selected f h0 grids i → r.1 !! i = Some cid)
  ∧ (∀ i, ¬ selected f h0 grids i → r.1 !! i = cids !! i).
Proof.
  intros Hal Hlen. induction grids as [|g grids IH] using rev_ind.
  - simpl. rewrite length_replicate.
    assert (Hnone : ∀ i, ¬ selected f h0 [] i).
    { by intros i (g & ?%elem_of_nil & _). }
    split; [done |]. split; [done |]. split; [| split]; intros i.
    + split; [by intros [? _]%lookup_replicate | by intros ?%Hnone].
    + by intros ?%Hnone.
    + done.
  - rewrite grow_layer_snoc. destruct IH as (Hl1 & Hl2 & Hsel & Hin & Hout).
    set (r := grow_layer f cid grids cids h0) in *.
    unfold grow_cell. cbn [fst snd].
    pose proof (length_nearby_mask f h0 g Hal) as Hln.
    assert (Hnear : ∀ i, near_cell f h0 g i → (i < n_points f)%nat).
    { intros i Hi%lookup_nearby_mask%lookup_lt_Some. lia. }
    assert (Hold : ∀ i, selected f h0 grids i → (i < n_points f)%nat).
    { intros i Hi%Hsel%lookup_lt_Some. lia. }
    assert (Hsplit : ∀ i, selected f h0 (grids ++ [g]) i
                          ↔ selected f h0 grids i ∨ near_cell f h0 g i).
    { intros i. unfold selected. split.
      - intros (g' & [Hg | ->%list_elem_of_singleton]%elem_of_app & Hn); eauto.
      - intros [(g' & Hg & Hn) | Hn].
        + exists g'. split; [apply elem_of_app; by left | done].
        + exists g. split; [apply elem_of_app; right; left | done]. }
    split; [by rewrite length_mask_assign |].
    split; [rewrite length_mask_or; lia |].
    split; [| split].
    + intros i. rewrite Hsplit, lookup_mask_or, lookup_nearby_mask, Hsel.
      split; [tauto |]. intros Hi.
      assert (i < n_points f)%nat by (destruct Hi; eauto).
      split; [apply lookup_lt_is_Some; lia |].
      split; [apply lookup_lt_is_Some; lia | done].
    + intros i Hi%Hsplit.
      destruct (decide (nearby_mask f (in_layer_mask f h0) g !! i = Some true))
        as [Hn | Hn].
      * assert (is_Some (r.1 !! i)) as [a Ha].
        { apply lookup_lt_is_Some. apply lookup_lt_Some in Hn. lia. }
        by eapply lookup_mask_assign_in.
      * rewrite lookup_mask_assign_out by done.
        destruct Hi as [Hi | Hi%lookup_nearby_mask]; [by apply Hin | done].
    + intros i Hi. rewrite lookup_mask_assign_out.
      * apply Hout. intros ?. apply Hi, Hsplit. by left.
      * intros ?%lookup_nearby_mask. apply Hi, Hsplit. by right.
Qed.

Lemma elem_of_np_unique (rows : list (Z * Z)) (g : Z * Z) :
  g ∈ np_unique rows ↔ g ∈ rows.
Proof.
  unfold np_unique. rewrite merge_sort_Permutation. apply elem_of_remove_dups.
Qed.

Lemma NoDup_np_unique (rows : list (Z * Z)) : NoDup (np_unique rows).
Proof.
  unfold np_unique. rewrite merge_sort_Permutation. apply NoDup_remove_dups.
Qed.


Lemma footprint_np_unique (f : Frame) (m : list bool) :
  footprint f (λ i, m !! i = Some true)
    (np_unique (compress m (grid_indices f))).
Proof.
  split; [apply NoDup_np_unique |]. intros [gx gy].
  rewrite elem_of_np_unique, elem_of_compress. unfold grid_indices.
  split.
  - intros (k & Hm & Hk). exists k. split; [done |].
    rewrite lookup_zip_with in Hk.
    destruct (x_idx f !! k) as [x|]; [| done]. simpl in Hk.
    destruct (y_idx f !! k) as [y|]; [| done]. simpl in Hk.
    by injection Hk as -> ->.
  - intros (k & Hm & Hx & Hy). exists k. split; [done |].
    simpl in Hx, Hy. by rewrite lookup_zip_with, Hx; simpl; rewrite Hy.
Qed.

Lemma footprint_ext (f : Frame) (P Q : nat → Prop) (grids : list (Z * Z)) :
  (∀ i, P i ↔ Q i) → footprint f P grids → footprint f Q grids.
Proof.
  intros HPQ [Hnd Hg]. split; [done |]. intros g. rewrite Hg.
  split; intros (i & Hi & ?); exists i; (split; [by apply HPQ | done]).
Qed.

Lemma lookup_seeds_mask (f : Frame) (cids : list Z) (cid : Z) (i : nat) :
  seeds_mask f cids cid !! i = Some true
  ↔ cids !! i = Some cid
    ∧ ∃ h, h_arr f !! i = Some h
         ∧ (base_h_cut (cfg f) - dz_global (cfg f) < h)%Q.
Proof.
  unfold seeds_mask, connect_layer.
  rewrite lookup_mask_and, !list_lookup_fmap.
  destruct (h_arr f !! i) as [h|], (cids !! i) as [c|]; simpl;
    try (split; [by intros [? ?] | by intros [? (? & ? & ?)]]).
  split.
  - intros [[= Hh%Qltb_lt] [= ->%Z.eqb_eq]]. eauto.
  - intros [[= ->] (? & [= <-] & Hh%Qltb_lt)]. by rewrite Hh, Z.eqb_refl.
Qed.

Lemma grow_cids_cons (f : Frame) (cids : list Z) (cid : Z) (ids : list Z) :
  grow_cids f cids (cid :: ids)
  = do c <- grow_cid f cids cid; grow_cids f c ids.
Proof.
  unfold grow_cids. simpl. destruct (grow_cid f cids cid) as [c | e]; [done |].
  simpl. induction ids as [|a ids IH]; [done | apply IH].
Qed.

Lemma np_arange_Ok (b hm s : Q) (layers : list Q) :
  np_arange b hm s = Ok layers →
  ¬ (s == 0)%Q
  ∧ length layers = Z.to_nat (Qceiling ((hm - b) / s))
  ∧ ∀ (k : nat) h0, layers !! k = Some h0 →
      h0 = (b + inject_Z (Z.of_nat k) * s)%Q ∧ ((0 < s)%Q → (h0 < hm)%Q).
Proof.
  unfold np_arange. destruct (Qeq_bool s 0) eqn:Hs; [done |].
  intros [= <-]. apply Qeq_bool_neq in Hs. split; [done |].
  split; [by rewrite length_fmap, length_seq |].
  intros k h0. rewrite list_lookup_fmap.
  destruct (seq _ _ !! k) as [k'|] eqn:Hk; [| done].
  apply lookup_seq in Hk as [-> Hk]. simpl. intros [= <-].
  split; [done |]. intros Hpos.
  set (q := ((hm - b) / s)%Q) in *.
  assert (Hlt : (inject_Z (Z.of_nat k) < q)%Q).
  { eapply Qle_lt_trans; [| apply (Qceiling_lt q)].
    rewrite <- Zle_Qle. lia. }
  apply (Qmult_lt_compat_r _ _ s) in Hlt; [| done].
  assert (Hq : (q * s == hm - b)%Q) by (unfold q; field; done).
  rewrite Hq in Hlt. lra.
Qed.

Lemma grow_cluster_Ok (f f' : Frame) :
  grow_cluster f = Ok f' →
  ∃ cmax cids, np_max (cid_arr f) = Some cmax
    ∧ grow_cids f (cid_arr f) (seqZ 1 cmax) = Ok cids
    ∧ f' = set_cid_arr f cids.
Proof.
  unfold grow_cluster. destruct (np_max (cid_arr f)) as [cmax|]; [| done].
  simpl. unfold py_range. replace (cmax + 1 - 1) with cmax by lia.
  destruct (grow_cids _ _ _) as [cids|] eqn:Hg; [| done]. simpl.
  intros [= <-]. by exists cmax, cids.
Qed.

Lemma wrap_int16_small (v : Z) : -32768 <= v <= 32767 → wrap_int16 v = v.
Proof. intros Hv. unfold wrap_int16. rewrite Z.mod_small; lia. Qed.

Lemma near_int16_bins (a b : Z) :
  -32768 <= a <= 32767 → -32768 <= b <= 32767 →
  near_int16 a b = true ↔ bins_near a b.
Proof.
  intros Ha Hb. unfold near_int16, bins_near, wrap_int16.
  rewrite Z.ltb_lt. Z.div_mod_to_equations. lia.
Qed.

Lemma selected_ext (f : Frame) (h0 : Q) (g1 g2 : list (Z * Z)) (i : nat) :
  (∀ g, g ∈ g1 ↔ g ∈ g2) → selected f h0 g1 i ↔ selected f h0 g2 i.
Proof.
  intros Hg. unfold selected.
  split; intros (g & Hin & Hn); exists g; (split; [by apply Hg | done]).
Qed.

Lemma footprint_unique (f : Frame) (P Q : nat → Prop) (g1 g2 : list (Z * Z)) :
  (∀ i, P i ↔ Q i) → footprint f P g1 → footprint f Q g2 →
  ∀ g, g ∈ g1 ↔ g ∈ g2.
Proof.
  intros HPQ [_ H1] [_ H2] g. rewrite H1, H2.
  split; intros (i & Hi & ?); exists i; (split; [by apply HPQ | done]).
Qed.

Lemma relabelled_unique (P : nat → Prop) (cid : Z) (cids c1 c2 : list Z) :
  (∀ i, P i ∨ ¬ P i) →
  relabelled P cid cids c1 → relabelled P cid cids c2 → c1 = c2.
Proof.
  intros Hdec [_ H1] [_ H2]. apply list_eq. intros i.
  destruct (Hdec i) as [Hi | Hi].
  - by rewrite (proj1 (H1 i) Hi), (proj1 (H2 i) Hi).
  - by rewrite (proj2 (H1 i) Hi), (proj2 (H2 i) Hi).
Qed.

Lemma grow_layer_relabelled (f : Frame) (cid : Z) (grids : list (Z * Z))
    (cids : list Z) (h0 : Q) :
  aligned f → length cids = n_points f →
  let r := grow_layer f cid grids cids h0 in
  relabelled (selected f h0 grids) cid cids r.1
  ∧ (∀ i, selected f h0 grids i ∨ ¬ selected f h0 grids i)
  ∧ ((mask_sum r.2 <? 1) = true ↔ ∀ i, ¬ selected f h0 grids i).
Proof.
  intros Hal Hlen r.
  destruct (grow_layer_spec f cid grids cids h0 Hal Hlen)
    as (Hl1 & _ & Hsel & Hin & Hout).
  fold r in Hl1, Hsel, Hin, Hout. split; [| split].
  - split; [by rewrite Hl1, Hlen |]. intros i. split; [apply Hin | apply Hout].
  - intros i. rewrite <- Hsel.
    destruct (decide (r.2 !! i = Some true)); [by left | by right].
  - rewrite mask_sum_lt_1. split; intros Hno i; specialize (Hno i);
      by rewrite Hsel in *.
Qed.

Lemma relabelled_none (P : nat → Prop) (cid : Z) (cids cids' : list Z) :
  (∀ i, ¬ P i) → relabelled P cid cids cids' → cids' = cids.
Proof.
  intros Hno [_ Hr]. apply list_eq. intros i. by apply Hr.
Qed.

(** The layer loop of the code runs as the relation says. *)
Lemma grow_layers_grown (f : Frame) (cid : Z) (layers : list Q) :
  aligned f →
  ∀ grids cids, length cids = n_points f →
    grown_layers f cid grids layers cids (grow_layers f cid grids layers cids).
Proof.
  intros Hal. induction layers as [|h0 rest IH]; intros grids cids Hlen.
  { constructor. }
  cbn [grow_layers].
  destruct (grow_layer_relabelled f cid grids cids h0 Hal Hlen)
    as (Hrel & Hdec & Hemp).
  destruct (grow_layer_spec f cid grids cids h0 Hal Hlen)
    as (Hl1 & _ & Hsel & _ & _).
  set (r := grow_layer f cid grids cids h0) in *.
  destruct (mask_sum r.2 <? 1) eqn:Hs.
  - pose proof (proj1 Hemp eq_refl) as Hno.
    rewrite (relabelled_none _ _ _ _ Hno Hrel). by constructor.
  - assert (Hex : ∃ i, selected f h0 grids i).
    { apply mask_sum_ge_1 in Hs as [i Hi]. exists i. by apply Hsel. }
    eapply grown_next; [done | done | | by apply IH].
    eapply footprint_ext; [apply Hsel | apply footprint_np_unique].
Qed.

(** The relation leaves one result, whatever list stands for a footprint. *)
Lemma grown_layers_grow (f : Frame) (cid : Z) (grids : list (Z * Z))
    (layers : list Q) (cids cids' : list Z) :
  aligned f → grown_layers f cid grids layers cids cids' →
  length cids = n_points f →
  ∀ grids0, (∀ g, g ∈ grids0 ↔ g ∈ grids) →
    grow_layers f cid grids0 layers cids = cids'.
Proof.
  intros Hal Hg.
  induction Hg as [grids cids | grids h0 rest cids Hno
                  | grids h0 rest cids cids1 grids1 cids' Hex Hrel Hfp Hg IH];
    intros Hlen grids0 Hmem.
  - done.
  - cbn [grow_layers].
    destruct (grow_layer_relabelled f cid grids0 cids h0 Hal Hlen)
      as (Hrel & _ & Hemp).
    assert (Hno0 : ∀ i, ¬ selected f h0 grids0 i).
    { intros i Hi. apply (Hno i). by apply (selected_ext f h0 grids0 grids). }
    rewrite (proj2 Hemp Hno0). by apply (relabelled_none _ _ _ _ Hno0 Hrel).
  - cbn [grow_layers].
    destruct (grow_layer_relabelled f cid grids0 cids h0 Hal Hlen)
      as (Hrel0 & Hdec & Hemp).
    destruct (grow_layer_spec f cid grids0 cids h0 Hal Hlen)
      as (Hl1 & _ & Hsel & _ & _).
    set (r := grow_layer f cid grids0 cids h0) in *.
    assert (Hse : ∀ i, selected f h0 grids0 i ↔ selected f h0 grids i)
      by (intros i; by apply selected_ext).
    destruct (mask_sum r.2 <? 1) eqn:Hs.
    { exfalso. destruct Hex as [i Hi]. apply (proj1 Hemp eq_refl i).
      by apply Hse. }
    assert (Hr1 : r.1 = cids1).
    { apply (relabelled_unique (selected f h0 grids0) cid cids); [done.. |].
      destruct Hrel as [Hl Hp]. split; [done |]. intros i.
      rewrite Hse. apply Hp. }
    rewrite Hr1. apply IH.
    + destruct Hrel as [-> _]. done.
    + apply (footprint_unique f (λ i, r.2 !! i = Some true)
               (selected f h0 grids)); [| apply footprint_np_unique | done].
      intros i. by rewrite Hsel, Hse.
Qed.

Lemma grown_layers_length (f : Frame) (cid : Z) (grids : list (Z * Z))
    (layers : list Q) (cids cids' : list Z) :
  grown_layers f cid grids layers cids cids' → length cids' = length cids.
Proof.
  induction 1 as [| | ? ? ? ? ? ? ? _ [Hl _] _ _ IH]; [done.. |].
  by rewrite IH.
Qed.

Lemma layer_starts_arange (f : Frame) (layers : list Q) :
  layer_starts f layers ↔
  np_arange (base_h_cut (cfg f)) (h_max_cut (cfg f)) (h_grid_size (cfg f))
  = Ok layers.
Proof.
  split.
  - intros (Hs & Hlen & Hk). unfold np_arange.
    destruct (Qeq_bool _ 0) eqn:Hz; [by apply Qeq_bool_eq in Hz |].
    f_equal. apply list_eq. intros k. rewrite list_lookup_fmap.
    destruct (layers !! k) as [h0|] eqn:Hl.
    + rewrite (Hk k h0 Hl).
      apply lookup_lt_Some in Hl. rewrite Hlen in Hl.
      by rewrite (lookup_seq_lt _ _ _ Hl).
    + apply lookup_ge_None in Hl. rewrite Hlen in Hl.
      by rewrite (lookup_seq_ge _ _ _ Hl).
  - intros (Hs & Hlen & Hk)%np_arange_Ok. split; [done |]. split; [done |].
    intros k h0 Hl. by apply Hk.
Qed.

Lemma seed_seeds_mask (f : Frame) (cids : list Z) (cid : Z) (i : nat) :
  seeds_mask f cids cid !! i = Some true ↔ seed f cids cid i.
Proof. apply lookup_seeds_mask. Qed.

(** The loop over the ids runs as the relation says, and the relation leaves
    one result. *)
Lemma grow_cids_grown (f : Frame) (ids : list Z) (cids cids' : list Z) :
  aligned f → length cids = n_points f →
  grow_cids f cids ids = Ok cids' ↔ grown_ids f ids cids cids'.
Proof.
  intros Hal Hlen. split.
  - revert cids Hlen. induction ids as [|cid ids IH]; intros cids Hlen.
    { intros [= <-]. constructor. }
    rewrite grow_cids_cons. unfold grow_cid.
    destruct (mask_sum (seeds_mask f cids cid) <? 1) eqn:Hs.
    + simpl. intros Hrest. apply grown_skip; [| by apply IH].
      intros i Hi%seed_seeds_mask. by apply (proj1 (mask_sum_lt_1 _) Hs i).
    + destruct (np_arange _ _ _) as [layers | e] eqn:Ha; [| done]. simpl.
      intros Hrest.
      pose proof (grow_layers_grown f cid layers Hal
                    (np_unique (compress (seeds_mask f cids cid)
                                         (grid_indices f))) cids Hlen) as Hg.
      eapply grown_cid; [| | by apply layer_starts_arange | exact Hg |].
      * apply mask_sum_ge_1 in Hs as [i Hi]. exists i.
        by apply seed_seeds_mask.
      * eapply footprint_ext; [apply seed_seeds_mask |].
        apply footprint_np_unique.
      * apply IH; [| done].
        by rewrite (grown_layers_length _ _ _ _ _ _ Hg).
  - intros Hg. revert Hlen.
    induction Hg as [cids | cid ids cids cids' Hno Hg IH
                    | cid ids cids grids layers cids1 cids' Hex Hfp Hl Hgl Hg IH];
      intros Hlen.
    + done.
    + rewrite grow_cids_cons. unfold grow_cid.
      rewrite (proj2 (mask_sum_lt_1 _)).
      * simpl. by apply IH.
      * intros i Hi%seed_seeds_mask. by apply (Hno i).
    + rewrite grow_cids_cons. unfold grow_cid.
      rewrite (proj2 (mask_sum_ge_1 _)).
      * rewrite (proj1 (layer_starts_arange f layers) Hl). simpl.
        rewrite (grown_layers_grow f cid grids layers cids cids1 Hal Hgl Hlen).
        -- apply IH. by rewrite (grown_layers_length _ _ _ _ _ _ Hgl).
        -- apply (footprint_unique f
                    (λ i, seeds_mask f cids cid !! i = Some true)
                    (seed f cids cid)); [| apply footprint_np_unique | done].
           intros i. apply seed_seeds_mask.
      * destruct Hex as [i Hi]. exists i. by apply seed_seeds_mask.
Qed.



Lemma grow_layer_outside (f : Frame) (cid : Z) (grids : list (Z * Z))
    (cids : list Z) (h0 : Q) (i : nat) :
  in_layer_mask f h0 !! i ≠ Some true →
  (grow_layer f cid grids cids h0).1 !! i = cids !! i.
Proof.
  intros Hout. unfold grow_layer.
  change (cids !! i) with ((cids, replicate (length cids) false).1 !! i).
  generalize (cids, replicate (length cids) false).
  induction grids as [|g grids IH]; intros st; [done |]. simpl.
  rewrite IH. apply lookup_mask_assign_out.
  unfold nearby_mask. by intros [_ ?]%lookup_mask_and.
Qed.

Lemma grow_layers_outside (f : Frame) (cid : Z) (layers : list Q)
    (grids : list (Z * Z)) (cids : list Z) (i : nat) :
  (∀ h0, h0 ∈ layers → in_layer_mask f h0 !! i ≠ Some true) →
  grow_layers f cid grids layers cids !! i = cids !! i.
Proof.
  revert grids cids. induction layers as [|h0 layers IH]; intros grids cids Hout;
    [done |].
  cbn [grow_layers].
  assert (Hl : (grow_layer f cid grids cids h0).1 !! i = cids !! i).
  { apply grow_layer_outside, Hout. left. }
  destruct (mask_sum _ <? 1); [done |].
  rewrite IH; [done |]. intros h1 Hh1. apply Hout. by right.
Qed.

(** No layer of the grower reaches below [base_h_cut]. *)
Lemma layers_above_base (f : Frame) (layers : list Q) (h0 h : Q) (i : nat) :
  np_arange (base_h_cut (cfg f)) (h_max_cut (cfg f)) (h_grid_size (cfg f))
  = Ok layers →
  h0 ∈ layers → h_arr f !! i = Some h → (h < base_h_cut (cfg f))%Q →
  in_layer_mask f h0 !! i ≠ Some true.
Proof.
  intros (_ & _ & Hlayers)%np_arange_Ok [k Hk]%list_elem_of_lookup Hh Hlow.
  apply Hlayers in Hk as [-> _].
  intros (h' & Hh' & Hlo & Hhi)%lookup_in_layer_mask.
  rewrite Hh in Hh'. injection Hh' as <-.
  destruct (Qlt_le_dec 0 (h_grid_size (cfg f))) as [Hpos | Hneg]; [| lra].
  assert (0 <= inject_Z (Z.of_nat k) * h_grid_size (cfg f))%Q; [| lra].
  apply Qmult_le_0_compat; [| lra].
  change 0%Q with (inject_Z 0). rewrite <- Zle_Qle. lia.
Qed.

Lemma grow_cid_below (f : Frame) (cids cids' : list Z) (cid : Z) (h : Q) (i : nat) :
  grow_cid f cids cid = Ok cids' →
  h_arr f !! i = Some h → (h < base_h_cut (cfg f))%Q →
  cids' !! i = cids !! i.
Proof.
  unfold grow_cid. destruct (mask_sum _ <? 1); [by intros [= <-] |].
  destruct (np_arange _ _ _) as [layers|] eqn:Har; [| done]. simpl.
  intros [= <-] Hh Hlow. apply grow_layers_outside.
  intros h0 Hh0. by eapply layers_above_base.
Qed.

Lemma grow_cids_below (f : Frame) (ids : list Z) (cids cids' : list Z)
    (h : Q) (i : nat) :
  grow_cids f cids ids = Ok cids' →
  h_arr f !! i = Some h → (h < base_h_cut (cfg f))%Q →
  cids' !! i = cids !! i.
Proof.
  revert cids. induction ids as [|cid ids IH]; intros cids.
  - by intros [= <-].
  - rewrite grow_cids_cons.
    destruct (grow_cid f cids cid) as [c|] eqn:Hc; [| done]. simpl.
    intros Hrest Hh Hlow. rewrite (IH _ Hrest Hh Hlow).
    by eapply grow_cid_below.
Qed.

(** The labels of the builder survive the grower. *)
Lemma builder_ids_kept (f f1 f2 : Frame) (i : nat) (j : Z) :
  clustering f = Ok f1 → grow_cluster f1 = Ok f2 →
  cid_arr f1 !! i = Some j → j ≠ 0 →
  cid_arr f2 !! i = Some j.
Proof.
  intros Hc (cmax & cids & _ & Hg & ->)%grow_cluster_Ok Hj Hne.
  apply clustering_Ok in Hc as (r & _ & ->). cbn [cid_arr set_cid_arr] in *.
  pose proof (sweep_inv_sweep f (sweep_blocks r.1 r.2) _ (sweep_inv_init f))
    as (_ & _ & _ & Hband).
  pose proof (Hband i j Hj Hne) as Hh.
  apply lookup_h_cut_mask in Hh as (h & Hh & _ & Hlow).
  rewrite <- Hj. by eapply (grow_cids_below _ _ _ _ h).
Qed.

(** ** Gridding, empty frames and the ground threshold *)

Lemma Qtrunc_floor (q : Q) : (0 <= q)%Q → Qtrunc q = Qfloor q.
Proof.
  destruct q as [n d]. unfold Qle, Qtrunc, Qfloor. simpl. intros Hn.
  apply Z.quot_div_nonneg; lia.
Qed.

Lemma astype_int16_Some (q : Q) (v : Z) :
  astype_int16 q = Some v ↔ v = Qtrunc q ∧ -32768 <= v <= 32767.
Proof.
  unfold astype_int16.
  destruct (_ && _) eqn:Hr.
  - apply andb_true_iff in Hr as [?%Z.leb_le ?%Z.leb_le].
    split; [intros [= <-]; lia | by intros [-> _]].
  - apply andb_false_iff in Hr. split; [done |]. intros [-> ?].
    destruct Hr as [?%Z.leb_gt | ?%Z.leb_gt]; lia.
Qed.

Lemma np_divide_Some (a b q : Q) :
  np_divide a b = Some q ↔ ¬ (b == 0)%Q ∧ q = (a / b)%Q.
Proof.
  unfold np_divide. destruct (Qeq_bool b 0) eqn:Hb.
  - apply Qeq_bool_iff in Hb. split; [done | by intros [? _]].
  - apply Qeq_bool_neq in Hb. split; [by intros [= <-] | by intros [_ ->]].
Qed.

Lemma np_divide_None (a b : Q) : np_divide a b = None ↔ (b == 0)%Q.
Proof.
  unfold np_divide. destruct (Qeq_bool b 0) eqn:Hb.
  - by apply Qeq_bool_iff in Hb.
  - apply Qeq_bool_neq in Hb. split; [done | by intros ?%Hb].
Qed.

Section Gridding.
Context `{Externals}.

Lemma theta_of_Some (x d t : Q) :
  theta_of x d = Some t
  ↔ ¬ (d == 0)%Q ∧ (-1 <= x / d)%Q ∧ (x / d <= 1)%Q ∧ t = np_arcsin (x / d).
Proof.
  unfold theta_of. destruct (np_divide x d) as [r|] eqn:Hr; simpl.
  - apply np_divide_Some in Hr as [Hd ->].
    destruct (Qle_bool (-1) (x / d)) eqn:Hlo; simpl.
    + destruct (Qle_bool (x / d) 1) eqn:Hhi.
      * apply Qle_bool_iff in Hlo, Hhi.
        split; [by intros [= <-] | by intros (_ & _ & _ & ->)].
      * split; [done |]. intros (_ & _ & Hc%Qle_bool_iff & _). congruence.
    + split; [done |]. intros (_ & Hc%Qle_bool_iff & _). congruence.
  - apply np_divide_None in Hr. split; [done | by intros [? _]].
Qed.

Lemma theta_of_None (x d : Q) :
  theta_of x d = None
  ↔ (d == 0)%Q ∨ ¬ ((-1 <= x / d)%Q ∧ (x / d <= 1)%Q).
Proof.
  destruct (theta_of x d) as [t|] eqn:Ht.
  - apply theta_of_Some in Ht as (Hd & Hlo & Hhi & _).
    split; [done |]. intros [? | Hn]; [done |]. by destruct Hn.
  - split; [| done]. intros _.
    destruct (Qeq_dec d 0) as [| Hd]; [by left | right].
    intros [Hlo Hhi].
    assert (theta_of x d = Some (np_arcsin (x / d))) by by apply theta_of_Some.
    congruence.
Qed.

Lemma angular_bin_Some (c : Config) (x d : Q) (v : Z) :
  angular_bin c x d = Some v
  ↔ ¬ (d == 0)%Q ∧ (-1 <= x / d)%Q ∧ (x / d <= 1)%Q
    ∧ ¬ (theta_grid_size c == 0)%Q
    ∧ v = Qtrunc ((np_arcsin (x / d) + max_theta c) / theta_grid_size c)
    ∧ -32768 <= v <= 32767.
Proof.
  unfold angular_bin.
  destruct (theta_of x d) as [t|] eqn:Ht; simpl.
  - apply theta_of_Some in Ht as (Hd & Hlo & Hhi & ->).
    destruct (np_divide _ _) as [q|] eqn:Hq; simpl.
    + apply np_divide_Some in Hq as [Hg ->]. rewrite astype_int16_Some.
      tauto.
    + apply np_divide_None in Hq. split; [done | tauto].
  - apply theta_of_None in Ht. split; [done |].
    intros (? & ? & ? & _). destruct Ht as [| Hn]; [done |]. by destruct Hn.
Qed.
End Gridding.

Lemma range_bin_Some (c : Config) (d : Q) (v : Z) :
  range_bin c d = Some v
  ↔ ¬ (dist_grid_size c == 0)%Q
    ∧ v = Qtrunc ((d - min_dist c) / dist_grid_size c)
    ∧ -32768 <= v <= 32767.
Proof.
  unfold range_bin. destruct (np_divide _ _) as [q|] eqn:Hq; simpl.
  - apply np_divide_Some in Hq as [Hg ->]. rewrite astype_int16_Some. tauto.
  - apply np_divide_None in Hq. split; [done | tauto].
Qed.

Section GriddingFrame.
Context `{Externals}.

Lemma gridding_Ok (f f' : Frame) :
  gridding f = Ok f' →
  ∃ th xs ys,
    f' = set_grid f th xs ys
    ∧ mapM (λ a : Vec3 * Q, angular_bin (cfg f) (vx a.1) a.2)
           (zip (pos f) (distXY f)) = Some xs
    ∧ mapM (range_bin (cfg f)) (distXY f) = Some ys.
Proof.
  unfold gridding.
  destruct (mapM (λ a : Vec3 * Q, theta_of _ _) _) as [th|]; [| done].
  destruct (mapM (λ a : Vec3 * Q, angular_bin _ _ _) _) as [xs|];
    [| done].
  destruct (mapM (range_bin _) _) as [ys|]; [| done].
  intros [= <-]. by exists th, xs, ys.
Qed.

Lemma gridding_undefined (f : Frame) (i : nat) (p : Vec3) (d : Q) :
  pos f !! i = Some p → distXY f !! i = Some d →
  angular_bin (cfg f) (vx p) d = None →
  gridding f = Error UndefinedCast.
Proof.
  intros Hp Hd Hnone. unfold gridding.
  destruct (mapM (λ a : Vec3 * Q, theta_of _ _) _) as [th|]; [| done].
  destruct (mapM (λ a : Vec3 * Q, angular_bin _ _ _) _) as [xs|] eqn:Hx;
    [| done].
  apply mapM_Some in Hx.
  assert (Hz : zip (pos f) (distXY f) !! i = Some (p, d)).
  { rewrite lookup_zip_with, Hp. simpl. by rewrite Hd. }
  destruct (Forall2_lookup_l _ _ _ _ _ Hx Hz) as (v & _ & Hv).
  simpl in Hv. congruence.
Qed.

(** C6 (amended).  For a point of nonzero range whose quotient [x / distXY]
    lies in [[-1, 1]], the angular bin is
    [(arcsin(x / distXY) + max_theta) / theta_grid_size] and the range bin
    [(distXY - min_dist) / dist_grid_size], both rounded toward zero (not
    down) and defined when the grid size is nonzero and the result fits 16
    bits; rounding toward zero is the floor on nonnegative quotients.
    Gridding fills the bins of every point with these values and leaves the
    other arrays of the frame as they were. *)
Theorem gridding_spec :
  (∀ (c : Config) (x d : Q),
     ¬ (d == 0)%Q → (-1 <= x / d)%Q → (x / d <= 1)%Q →
     ¬ (theta_grid_size c == 0)%Q →
     let q := ((np_arcsin (x / d) + max_theta c) / theta_grid_size c)%Q in
     -32768 <= Qtrunc q <= 32767 →
     angular_bin c x d = Some (Qtrunc q))
  ∧ (∀ (c : Config) (d : Q),
       ¬ (dist_grid_size c == 0)%Q →
       let q := ((d - min_dist c) / dist_grid_size c)%Q in
       -32768 <= Qtrunc q <= 32767 →
       range_bin c d = Some (Qtrunc q))
  ∧ (∀ q : Q, (0 <= q)%Q → Qtrunc q = Qfloor q)
  ∧ (∀ (f f' : Frame), gridding f = Ok f' →
       (∀ i p d, pos f !! i = Some p → distXY f !! i = Some d →
          ¬ (d == 0)%Q
          ∧ x_idx f' !! i = angular_bin (cfg f) (vx p) d
          ∧ y_idx f' !! i = range_bin (cfg f) d
          ∧ is_Some (x_idx f' !! i) ∧ is_Some (y_idx f' !! i))
       ∧ cfg f' = cfg f ∧ n_points f' = n_points f ∧ pos f' = pos f
       ∧ intensities f' = intensities f ∧ distXY f' = distXY f
       ∧ h_arr f' = h_arr f ∧ flags f' = flags f ∧ cid_arr f' = cid_arr f
       ∧ grd_par f' = grd_par f).
Proof.
  split; [| split; [| split; [apply Qtrunc_floor |]]].
  - intros c x d Hd Hlo Hhi Hg q Hr. by apply angular_bin_Some.
  - intros c d Hg q Hr. by apply range_bin_Some.
  - intros f f' (th & xs & ys & -> & Hx & Hy)%gridding_Ok.
    split; [| done]. intros i p d Hp Hd. simpl.
    apply mapM_Some in Hx, Hy.
    assert (Hz : zip (pos f) (distXY f) !! i = Some (p, d)).
    { rewrite lookup_zip_with, Hp. simpl. by rewrite Hd. }
    destruct (Forall2_lookup_l _ _ _ _ _ Hx Hz) as (v & Hv & Hbin).
    destruct (Forall2_lookup_l _ _ _ _ _ Hy Hd) as (w & Hw & Hrng).
    simpl in Hbin. rewrite Hv, Hw, Hbin, Hrng.
    apply angular_bin_Some in Hbin as (Hd0 & _). eauto.
Qed.

(** C7 (amended).  Gridding has no guard: a point of zero range, or one whose
    quotient [x / distXY] lies outside [[-1, 1]], has no angular bin, and a
    frame that holds such a point has no defined gridding; no point is
    dropped or clamped.  The angle is defined for every other point. *)
Theorem gridding_unguarded :
  (∀ (c : Config) (x d : Q), (d == 0)%Q → angular_bin c x d = None)
  ∧ (∀ (c : Config) (x d : Q),
       ¬ ((-1 <= x / d)%Q ∧ (x / d <= 1)%Q) → angular_bin c x d = None)
  ∧ (∀ (x d : Q),
       ¬ (d == 0)%Q → (-1 <= x / d)%Q → (x / d <= 1)%Q →
       theta_of x d = Some (np_arcsin (x / d)))
  ∧ (∀ (f : Frame) (i : nat) (p : Vec3) (d : Q),
       pos f !! i = Some p → distXY f !! i = Some d →
       angular_bin (cfg f) (vx p) d = None →
       gridding f = Error UndefinedCast)
  ∧ (∀ (f f' : Frame), gridding f = Ok f' →
       length (x_idx f') = length (zip (pos f) (distXY f))).
Proof.
  split; [| split; [| split; [| split]]].
  - intros c x d Hd. unfold angular_bin.
    by rewrite (proj2 (theta_of_None x d)) by by left.
  - intros c x d Hr. unfold angular_bin.
    by rewrite (proj2 (theta_of_None x d)) by by right.
  - intros x d Hd Hlo Hhi. by apply theta_of_Some.
  - apply gridding_undefined.
  - intros f f' (th & xs & ys & -> & Hx & Hy)%gridding_Ok. simpl.
    symmetry. by eapply length_mapM.
Qed.
End GriddingFrame.

Section GroundFrame.
Context `{Externals}.

Lemma refine_cell_lengths (in_y nearby_y : list bool) (f : Frame) (ix : Z) :
  let g := refine_cell in_y nearby_y f ix in
  length (h_arr g) = length (h_arr f) ∧ length (flags g) = length (flags f)
  ∧ cid_arr g = cid_arr f ∧ cfg g = cfg f.
Proof.
  unfold refine_cell. destruct (_ <? _); [done |]. simpl.
  by rewrite !length_set_at.
Qed.

Lemma refine_cells_lengths (in_y nearby_y : list bool) (ixs : list Z) (f : Frame) :
  let g := foldl (refine_cell in_y nearby_y) f ixs in
  length (h_arr g) = length (h_arr f) ∧ length (flags g) = length (flags f)
  ∧ cid_arr g = cid_arr f ∧ cfg g = cfg f.
Proof.
  revert f. induction ixs as [|ix ixs IH]; intros f; [done |]. simpl.
  destruct (IH (refine_cell in_y nearby_y f ix)) as (-> & -> & -> & ->).
  apply refine_cell_lengths.
Qed.

Lemma refine_row_lengths (f : Frame) (iy : Z) :
  let g := refine_row f iy in
  length (h_arr g) = length (h_arr f) ∧ length (flags g) = length (flags f)
  ∧ cid_arr g = cid_arr f ∧ cfg g = cfg f.
Proof.
  unfold refine_row. destruct (_ <? _); [done |]. apply refine_cells_lengths.
Qed.

Lemma refine_rows_lengths (iys : list Z) (f : Frame) :
  let g := foldl refine_row f iys in
  length (h_arr g) = length (h_arr f) ∧ length (flags g) = length (flags f)
  ∧ cid_arr g = cid_arr f ∧ cfg g = cfg f.
Proof.
  revert f. induction iys as [|iy iys IH]; intros f; [done |]. simpl.
  destruct (IH (refine_row f iy)) as (-> & -> & -> & ->).
  apply refine_row_lengths.
Qed.

Lemma ground_detection_lengths (f : Frame) :
  let g := ground_detection f in
  length (h_arr g) = length (pos f) ∧ length (flags g) = n_points f
  ∧ cid_arr g = cid_arr f ∧ cfg g = cfg f.
Proof.
  unfold ground_detection.
  destruct (refine_rows_lengths (py_range 0 (n_dist_grids (cfg f)))
              (ground_detection_global f)) as (-> & -> & -> & ->).
  unfold ground_detection_global. simpl.
  by rewrite length_fmap, length_set_at, length_replicate.
Qed.

Lemma Frame_init_invalid (pts : list RawPoint) (c : Config) :
  Forall (λ p, invalid p = true) pts →
  filter (λ p, invalid p = false) pts = [].
Proof.
  induction 1 as [|p pts Hp _ IH]; [done |].
  rewrite filter_cons_False by congruence. done.
Qed.

(** C8 (amended).  On a frame without valid points, gridding returns with
    empty bins, and ground detection then returns with empty flags, heights
    and cluster ids (given a plane fit that returns on no points). *)
Theorem empty_frame (pts : list RawPoint) (c : Config) :
  Forall (λ p, invalid p = true) pts →
  let f0 := Frame_init pts c in
  n_points f0 = 0%nat
  ∧ ∃ f1, gridding f0 = Ok f1
      ∧ x_idx f1 = [] ∧ y_idx f1 = []
      ∧ flags (ground_detection f1) = []
      ∧ h_arr (ground_detection f1) = []
      ∧ cid_arr (ground_detection f1) = [].
Proof.
  intros Hinv f0.
  assert (Hf0 : f0 = {| cfg := c; n_points := 0; pos := []; intensities := [];
                        h_arr := []; distXY := []; flags := []; cid_arr := [];
                        grd_par := (0%Q, 0%Q, (- lidar_height c)%Q);
                        theta := []; x_idx := []; y_idx := [] |}).
  { unfold f0, Frame_init. by rewrite (Frame_init_invalid pts c Hinv). }
  rewrite Hf0. split; [done |]. eexists. split; [reflexivity |].
  split; [done |]. split; [done |].
  match goal with |- context [ground_detection ?f] =>
    destruct (ground_detection_lengths f) as (Hh & Hfl & Hc & _) end.
  simpl in Hh, Hfl, Hc. rewrite Hc.
  split; [by apply nil_length_inv |]. split; [by apply nil_length_inv | done].
Qed.
End GroundFrame.

Lemma clustering_empty (f : Frame) :
  x_idx f = [] → clustering f = Error EmptyReduction.
Proof. intros Hx. unfold clustering, sweep_ranges. by rewrite Hx. Qed.

Lemma grow_cluster_empty (f : Frame) :
  cid_arr f = [] → grow_cluster f = Error EmptyReduction.
Proof. intros Hc. unfold grow_cluster. by rewrite Hc. Qed.

Lemma np_clip_mono_hi (v lo g g' : Q) :
  (g <= g')%Q → (np_clip v lo g <= np_clip v lo g')%Q.
Proof. intros Hg. unfold np_clip. by apply Q.min_le_compat_l. Qed.

Lemma filter_length_le {A} (P : A → Prop) `{∀ x, Decision (P x)} (l1 l2 : list A) :
  Forall2 (λ a b, P a → P b) l1 l2 →
  (length (filter P l1) <= length (filter P l2))%nat.
Proof.
  induction 1 as [|a b l1 l2 Hab _ IH]; [done |].
  rewrite !filter_cons.
  destruct (decide (P a)), (decide (P b)); simpl; try lia. tauto.
Qed.

Section Monotone.
Context `{Externals}.

(** The seed ground points of the global phase. *)
Lemma ground_global_flag (f : Frame) (i : nat) (v : Z) :
  let par := plane_fit (take_at (pos f) (grd_candidates f)) in
  flags (ground_detection_global f) !! i = Some v →
  (has_ground v = true
   ↔ i ∈ grd_candidates f
     ∧ Qltb ((plane_height par <$> pos f) !!! i) (dz_local (cfg f)) = true).
Proof.
  intros par. unfold ground_detection_global. simpl. fold par.
  rewrite lookup_set_at.
  destruct (replicate _ _ !! i) as [z|] eqn:Hz; [| done].
  apply lookup_replicate in Hz as [-> _]. simpl.
  rewrite <- (elem_of_compress_test (λ hv, Qltb hv (dz_local (cfg f)))).
  intros [= <-]. destruct (decide _); [done |]. split; [done | tauto].
Qed.

(** C9 (amended).  Raising [dz_global], everything else fixed, keeps every
    ground candidate of Phase A, so their number does not decrease; when the
    global fit returns the same plane for both candidate sets, every point
    flagged ground by Phase A stays flagged, and the number of flagged points
    does not decrease. *)
Theorem candidates_monotone (f : Frame) (g g' : Q) :
  (g <= g')%Q →
  let f1 := set_cfg f (with_dz_global (cfg f) g) in
  let f2 := set_cfg f (with_dz_global (cfg f) g') in
  (∀ i, i ∈ grd_candidates f1 → i ∈ grd_candidates f2)
  ∧ (length (grd_candidates f1) <= length (grd_candidates f2))%nat
  ∧ (plane_fit (take_at (pos f) (grd_candidates f1))
     = plane_fit (take_at (pos f) (grd_candidates f2)) →
     (∀ i v, flags (ground_detection_global f1) !! i = Some v →
        has_ground v = true →
        ∃ v', flags (ground_detection_global f2) !! i = Some v'
            ∧ has_ground v' = true)
     ∧ (ground_count (ground_detection_global f1)
        <= ground_count (ground_detection_global f2))%nat).
Proof.
  intros Hg f1 f2.
  assert (Hsub : ∀ i, i ∈ grd_candidates f1 → i ∈ grd_candidates f2).
  { intros i. unfold grd_candidates. rewrite !elem_of_np_where.
    unfold grd_candidates_mask. simpl. rewrite !lookup_zip_with.
    destruct (pos f !! i) as [p|]; [| done]. simpl.
    destruct (distXY f !! i) as [d|]; [| done]. simpl.
    intros [= Hc%Qltb_lt]. f_equal. apply Qltb_lt.
    eapply Qlt_le_trans; [done |]. by apply np_clip_mono_hi. }
  split; [done |]. split.
  { apply submseteq_length, NoDup_submseteq; [apply NoDup_np_where | done]. }
  intros Hpar.
  assert (Hflag : ∀ i v, flags (ground_detection_global f1) !! i = Some v →
            has_ground v = true →
            ∃ v', flags (ground_detection_global f2) !! i = Some v'
                ∧ has_ground v' = true).
  { intros i v Hv Hgr.
    assert (is_Some (flags (ground_detection_global f2) !! i)) as [v' Hv'].
    { apply lookup_lt_is_Some. apply lookup_lt_Some in Hv.
      unfold ground_detection_global in *. simpl in *.
      by rewrite length_set_at in *. }
    exists v'. split; [done |].
    apply (ground_global_flag f1) in Hv. apply (ground_global_flag f2) in Hv'.
    apply Hv'. apply Hv in Hgr as [Hc Hh]. split; [by apply Hsub |].
    change (pos f2) with (pos f). change (pos f1) with (pos f) in Hh.
    change (dz_local (cfg f2)) with (dz_local (cfg f)).
    change (dz_local (cfg f1)) with (dz_local (cfg f)) in Hh.
    by rewrite <- Hpar. }
  split; [done |].
  unfold ground_count. apply filter_length_le.
  apply Forall2_same_length_lookup. split.
  - unfold ground_detection_global. simpl. by rewrite !length_set_at.
  - intros i v v' Hv Hv' Hgr. destruct (Hflag i v Hv Hgr) as (w & Hw & ?).
    congruence.
Qed.
End Monotone.

(** ** The statements on the example data *)

(** The example frame is the gridding of [demo_frame0]. *)
Example demo_frame_gridded : @gridding demo_ext demo_frame0 = Ok demo_frame.
Proof. vm_compute. reflexivity. Qed.

Example demo_frame_bins :
  distXY demo_frame = [1; 1; 1; 1; 2; 2; 4; 4]%Q
  ∧ x_idx demo_frame = [3; 0; 2; 2; 2; 2; 3; 0]
  ∧ y_idx demo_frame = [1; 1; 1; 1; 2; 2; 4; 4].
Proof. vm_compute. done. Qed.

(** C1 at the far return of the example frame. *)
Lemma ground_global_spec_witness :
  pos demo_frame !! 6%nat = Some (4, 0, -3)%Q
  ∧ distXY demo_frame !! 6%nat = Some 4%Q
  ∧ (6 < n_points demo_frame)%nat
  ∧ ∃ hv, h_arr (@ground_detection_global demo_ext demo_frame) !! 6%nat = Some hv
        ∧ (hv == -1)%Q.
Proof.
  assert (Hp : pos demo_frame !! 6%nat = Some (4, 0, -3)%Q) by reflexivity.
  assert (Hd : distXY demo_frame !! 6%nat = Some 4%Q) by reflexivity.
  assert (Hn : (6 < n_points demo_frame)%nat) by (vm_compute; lia).
  do 3 (split; [assumption |]).
  destruct (@ground_global_spec demo_ext demo_frame 6 _ _ Hp Hd Hn)
    as (_ & Hh & _).
  eexists. split; [exact Hh |]. vm_compute. reflexivity.
Defined.

(** C2 at a ground return of the example frame, cell [(2, 1)]. *)
Lemma refine_cell_spec_witness :
  let f := @ground_detection_global demo_ext demo_frame3 in
  min_grd_pts (cfg f) <= Z.of_nat (length (to_fit_idx f (nearby_y_mask f 1) 2))
  ∧ x_idx f !! 2%nat = Some 2 ∧ y_idx f !! 2%nat = Some 1
  ∧ flags (@refine_cell demo_ext (in_y_mask f 1) (nearby_y_mask f 1) f 2)
      !! 2%nat = Some (Z.lor 2 _IS_GROUND).
Proof.
  intros f.
  assert (Hfit : min_grd_pts (cfg f)
                 <= Z.of_nat (length (to_fit_idx f (nearby_y_mask f 1) 2)))
    by (vm_compute; discriminate).
  assert (Hx : x_idx f !! 2%nat = Some 2) by reflexivity.
  assert (Hy : y_idx f !! 2%nat = Some 1) by reflexivity.
  assert (Hp : pos f !! 2%nat = Some (0, 1, -2)%Q) by reflexivity.
  assert (Hh : h_arr f !! 2%nat = Some 0%Q) by (vm_compute; reflexivity).
  assert (Hv : flags f !! 2%nat = Some 2) by (vm_compute; reflexivity).
  do 3 (split; [assumption |]).
  destruct (@refine_cell_spec demo_ext f 2 1 2 _ _ _ Hfit Hx Hy Hp Hh Hv)
    as (_ & Hon & _).
  apply Hon. split; vm_compute; reflexivity.
Defined.








(** C6 (amended) on the example frame. *)
Lemma gridding_spec_witness :
  @gridding demo_ext demo_frame0 = Ok demo_frame
  ∧ x_idx demo_frame !! 0%nat = @angular_bin demo_ext demo_cfg 1 1
  ∧ y_idx demo_frame !! 0%nat = range_bin demo_cfg 1
  ∧ range_bin demo_cfg 4 = Some 4.
Proof.
  assert (Hg : @gridding demo_ext demo_frame0 = Ok demo_frame)
    by (vm_compute; reflexivity).
  destruct (@gridding_spec demo_ext) as (_ & Hrange & _ & Hframe).
  destruct (Hframe demo_frame0 demo_frame Hg) as (Hbins & _).
  destruct (Hbins 0%nat (1, 0, -2)%Q 1%Q eq_refl eq_refl)
    as (_ & Hx & Hy & _).
  split; [assumption |]. split; [exact Hx |]. split; [exact Hy |].
  apply (Hrange demo_cfg 4%Q); vm_compute; [discriminate | split; discriminate].
Defined.

(** C6 as stated fails: a return at range 1 with [min_dist = 2] and
    [dist_grid_size = 2] gets range bin [0], the floor of [-1/2] is [-1]. *)
Lemma range_bin_not_floor :
  ∃ f', @gridding demo_ext (@Frame_init demo_ext [raw 1 0 (-2) false] near_cfg)
        = Ok f'
      ∧ distXY f' = [1%Q]
      ∧ y_idx f' = [0]
      ∧ Qfloor ((1 - min_dist near_cfg) / dist_grid_size near_cfg) = -1.
Proof. eexists. vm_compute. repeat split; reflexivity. Qed.

(** C7 (amended) on a frame whose only return is at the sensor's axis. *)
Lemma gridding_unguarded_witness :
  pos (@Frame_init demo_ext [raw 0 0 (-2) false] demo_cfg) !! 0%nat
  = Some (0, 0, -2)%Q
  ∧ @gridding demo_ext (@Frame_init demo_ext [raw 0 0 (-2) false] demo_cfg)
    = Error UndefinedCast.
Proof.
  split; [reflexivity |].
  destruct (@gridding_unguarded demo_ext) as (Hzero & _ & _ & Hframe & _).
  apply (Hframe _ 0%nat (0, 0, -2)%Q 0%Q); [reflexivity | reflexivity |].
  apply Hzero. reflexivity.
Defined.

(** C7 as stated fails: a return of zero range stays in the frame and its
    angular bin is undefined. *)
Lemma zero_range_unguarded :
  distXY (@Frame_init demo_ext [raw 0 0 (-2) false] demo_cfg) = [0%Q]
  ∧ @angular_bin demo_ext demo_cfg 0 0 = None
  ∧ @gridding demo_ext (@Frame_init demo_ext [raw 0 0 (-2) false] demo_cfg)
    = Error UndefinedCast.
Proof. vm_compute. repeat split; reflexivity. Qed.

(** C8 (amended) on a batch with one invalid return. *)
Lemma empty_frame_witness :
  Forall (λ p, invalid p = true) [raw 9 9 9 true]
  ∧ ∃ f1, @gridding demo_ext (@Frame_init demo_ext [raw 9 9 9 true] demo_cfg)
          = Ok f1
      ∧ flags (@ground_detection demo_ext f1) = []
      ∧ h_arr (@ground_detection demo_ext f1) = [].
Proof.
  assert (Hinv : Forall (λ p, invalid p = true) [raw 9 9 9 true]).
  { apply Forall_cons. split; [reflexivity | apply Forall_nil_2]. }
  split; [assumption |].
  destruct (@empty_frame demo_ext [raw 9 9 9 true] demo_cfg Hinv)
    as (_ & f1 & Hg & _ & _ & Hfl & Hh & _).
  exists f1. repeat split; assumption.
Defined.

(** C8 as stated fails: on the frame built from one invalid return,
    clustering and cluster growing raise. *)
Lemma empty_frame_raises :
  let f0 := @Frame_init demo_ext [raw 9 9 9 true] demo_cfg in
  n_points f0 = 0%nat
  ∧ @gridding demo_ext f0 = Ok f0
  ∧ clustering (@ground_detection demo_ext f0) = Error EmptyReduction
  ∧ grow_cluster (@ground_detection demo_ext f0) = Error EmptyReduction.
Proof. vm_compute. repeat split; reflexivity. Qed.

(** C9 (amended) on the example frame, [dz_global] 1 and 2. *)
Lemma candidates_monotone_witness :
  (1 <= 2)%Q
  ∧ grd_candidates (set_cfg demo_frame3 (with_dz_global (cfg demo_frame3) 1))
    = [0; 1; 2; 3; 4; 5]%nat
  ∧ grd_candidates (set_cfg demo_frame3 (with_dz_global (cfg demo_frame3) 2))
    = [0; 1; 2; 3; 4; 5; 6; 7]%nat
  ∧ (length (grd_candidates
               (set_cfg demo_frame3 (with_dz_global (cfg demo_frame3) 1)))
     <= length (grd_candidates
                  (set_cfg demo_frame3 (with_dz_global (cfg demo_frame3) 2))))%nat.
Proof.
  assert (Hg : (1 <= 2)%Q) by (vm_compute; discriminate).
  split; [assumption |]. split; [vm_compute; reflexivity |].
  split; [vm_compute; reflexivity |].
  destruct (@candidates_monotone demo_ext demo_frame3 1 2 Hg) as (_ & Hlen & _).
  exact Hlen.
Defined.

(** C9 as stated fails: with [dz_global = 1] six points end flagged ground,
    with [dz_global = 2] the two far returns join the fit, the plane drops by
    a quarter, and only these two end flagged. *)
Lemma ground_count_not_monotone :
  dz_global (cfg demo_frame3) = 1%Q
  ∧ @ground_count (@ground_detection demo_ext demo_frame3) = 6%nat
  ∧ @ground_count
      (@ground_detection demo_ext
         (set_cfg demo_frame3 (with_dz_global (cfg demo_frame3) 2)))
    = 2%nat.
Proof. vm_compute. repeat split; reflexivity. Qed.

(** The two global fits of the example: the plane [z = -2] through the six
    near returns, the plane [z = -9/4] for all eight; the residuals of the
    latter satisfy the normal equations of the least-squares problem. *)
Example demo_global_fits :
  plane_fit_ls (take_at (pos demo_frame3) [0; 1; 2; 3; 4; 5]%nat)
  = (0, 0, -2)%Q
  ∧ plane_fit_ls (pos demo_frame3) = (0, 0, -9 # 4)%Q
  ∧ let res := plane_height (0, 0, -9 # 4)%Q <$> pos demo_frame3 in
    (sumQ res == 0)%Q
    ∧ (sumQ (zip_with Qmult (vx <$> pos demo_frame3) res) == 0)%Q
    ∧ (sumQ (zip_with Qmult (vy <$> pos demo_frame3) res) == 0)%Q.
Proof. vm_compute. repeat split; reflexivity. Qed.

(** On [clustered_frame], point 4 is unlabelled after clustering, labelled 1 by
    the growth of cluster 1 and relabelled 2 by the growth of cluster 2. *)
Example grower_relabels_own_point :
  clustering cluster_frame = Ok clustered_frame
  ∧ cid_arr clustered_frame !! 4%nat = Some 0
  ∧ grow_cids clustered_frame (cid_arr clustered_frame) [1]
    = Ok [1; 1; 2; 2; 1; 0; 0]
  ∧ grow_cids clustered_frame (cid_arr clustered_frame) [1; 2]
    = Ok [1; 1; 2; 2; 2; 0; 0]
  ∧ grow_cluster clustered_frame
    = Ok (set_cid_arr clustered_frame [1; 1; 2; 2; 2; 0; 0]).
Proof. vm_compute. repeat split; reflexivity. Qed.

(** C10 (amended).  The cluster grower preserves the membership the builder
    established: a point with a nonzero id after clustering has the same id
    after growing.  What the growth of a later id overwrites is a label that
    the grower itself gave, for an earlier id, to a point above the band. *)
Theorem builder_ids_survive :
  (∀ (f f1 f2 : Frame) (i : nat) (j : Z),
     clustering f = Ok f1 → grow_cluster f1 = Ok f2 →
     cid_arr f1 !! i = Some j → j ≠ 0 →
     cid_arr f2 !! i = Some j)
  ∧ (∃ (f : Frame) (i : nat) (c1 c2 : list Z),
       cid_arr f !! i = Some 0
       ∧ grow_cids f (cid_arr f) [1] = Ok c1 ∧ c1 !! i = Some 1
       ∧ grow_cids f (cid_arr f) [1; 2] = Ok c2 ∧ c2 !! i = Some 2).
Proof.
  split; [apply builder_ids_kept |].
  exists clustered_frame, 4%nat, [1; 1; 2; 2; 1; 0; 0], [1; 1; 2; 2; 2; 0; 0].
  vm_compute. repeat split; reflexivity.
Qed.

Lemma builder_ids_survive_witness :
  clustering cluster_frame = Ok clustered_frame
  ∧ grow_cluster clustered_frame
    = Ok (set_cid_arr clustered_frame [1; 1; 2; 2; 2; 0; 0])
  ∧ cid_arr clustered_frame !! 2%nat = Some 2
  ∧ cid_arr (set_cid_arr clustered_frame [1; 1; 2; 2; 2; 0; 0]) !! 2%nat
    = Some 2.
Proof.
  assert (Hc : clustering cluster_frame = Ok clustered_frame)
    by (vm_compute; reflexivity).
  assert (Hg : grow_cluster clustered_frame
               = Ok (set_cid_arr clustered_frame [1; 1; 2; 2; 2; 0; 0]))
    by (vm_compute; reflexivity).
  assert (Hj : cid_arr clustered_frame !! 2%nat = Some 2) by reflexivity.
  do 3 (split; [assumption |]).
  destruct builder_ids_survive as [Hkeep _].
  apply (Hkeep cluster_frame clustered_frame _ 2%nat 2 Hc Hg Hj).
  discriminate.
Defined.

(** C10 as stated fails: no frame has a point with one nonzero id after
    clustering and another after growing. *)
Lemma no_builder_id_changes :
  ¬ ∃ (f f1 f2 : Frame) (i : nat) (j k : Z),
      clustering f = Ok f1 ∧ grow_cluster f1 = Ok f2
      ∧ cid_arr f1 !! i = Some j ∧ cid_arr f2 !! i = Some k
      ∧ j ≠ 0 ∧ k ≠ 0 ∧ j ≠ k.
Proof.
  intros (f & f1 & f2 & i & j & k & Hc & Hg & Hj & Hk & Hj0 & _ & Hjk).
  rewrite (builder_ids_kept f f1 f2 i j Hc Hg Hj Hj0) in Hk. congruence.
Qed.

(** * Further properties of the methods *)

(** ** Gridding: the cells of the bins *)

Lemma Zquot_cases (n d k : Z) :
  0 < d →
  Z.quot n d = k
  ↔ (0 <= n ∧ k * d <= n < (k + 1) * d) ∨ (n < 0 ∧ (k - 1) * d < n <= k * d).
Proof.
  intros Hd.
  pose proof (Z.quot_rem' n d) as Hqr.
  destruct (Z_lt_le_dec n 0) as [Hn | Hn].
  - pose proof (Z.rem_bound_pos_neg n d ltac:(lia) ltac:(lia)) as Hr.
    split.
    + intros <-. right. nia.
    + intros [[? _] | [_ Hk]]; [lia |]. nia.
  - pose proof (Z.rem_bound_pos n d Hn Hd) as Hr.
    split.
    + intros <-. left. nia.
    + intros [[_ Hk] | [? _]]; [| lia]. nia.
Qed.

Lemma inject_Z_le_Q (k : Z) (n : Z) (d : positive) :
  (inject_Z k <= n # d)%Q ↔ k * Zpos d <= n.
Proof. unfold Qle. simpl. lia. Qed.

Lemma inject_Z_lt_Q (k : Z) (n : Z) (d : positive) :
  (inject_Z k < n # d)%Q ↔ k * Zpos d < n.
Proof. unfold Qlt. simpl. lia. Qed.

Lemma Q_le_inject_Z (k : Z) (n : Z) (d : positive) :
  (n # d <= inject_Z k)%Q ↔ n <= k * Zpos d.
Proof. unfold Qle. simpl. lia. Qed.

Lemma Q_lt_inject_Z (k : Z) (n : Z) (d : positive) :
  (n # d < inject_Z k)%Q ↔ n < k * Zpos d.
Proof. unfold Qlt. simpl. lia. Qed.

(** Rounding toward zero: the cell of [0] is twice as wide as the others. *)
Lemma Qtrunc_cases (q : Q) (k : Z) :
  Qtrunc q = k
  ↔ (1 <= k ∧ (inject_Z k <= q)%Q ∧ (q < inject_Z (k + 1))%Q)
    ∨ (k = 0 ∧ (inject_Z (-1) < q)%Q ∧ (q < inject_Z 1)%Q)
    ∨ (k <= -1 ∧ (inject_Z (k - 1) < q)%Q ∧ (q <= inject_Z k)%Q).
Proof.
  destruct q as [n d]. unfold Qtrunc. cbn [Qnum Qden].
  rewrite Zquot_cases by lia.
  rewrite !inject_Z_le_Q, !inject_Z_lt_Q, !Q_le_inject_Z, !Q_lt_inject_Z.
  pose proof (Pos2Z.is_pos d). split.
  - intros [[Hn Hk] | [Hn Hk]].
    + destruct (Z_lt_le_dec k 1); [right; left | left]; nia.
    + destruct (Z_lt_le_dec (-1) k); [right; left | right; right]; nia.
  - intros [(Hk & H1 & H2) | [(-> & H1 & H2) | (Hk & H1 & H2)]].
    + left. nia.
    + destruct (Z_lt_le_dec n 0); [right | left]; nia.
    + right. nia.
Qed.

Lemma Qtrunc_bin_cell (q v off size : Q) (k : Z) :
  (0 < size)%Q → (q * size == v - off)%Q →
  Qtrunc q = k ↔ bin_cell off size v k.
Proof.
  intros Hs Hq. rewrite Qtrunc_cases. unfold bin_cell.
  assert (Hle : ∀ a, (a <= q)%Q ↔ (off + a * size <= v)%Q).
  { intros a. rewrite <- (Qmult_le_r a q size Hs), Hq. split; intros; lra. }
  assert (Hlt : ∀ a, (a < q)%Q ↔ (off + a * size < v)%Q).
  { intros a. rewrite <- (Qmult_lt_r a q size Hs), Hq. split; intros; lra. }
  assert (Hge : ∀ a, (q <= a)%Q ↔ (v <= off + a * size)%Q).
  { intros a. rewrite <- (Qmult_le_r q a size Hs), Hq. split; intros; lra. }
  assert (Hgt : ∀ a, (q < a)%Q ↔ (v < off + a * size)%Q).
  { intros a. rewrite <- (Qmult_lt_r q a size Hs), Hq. split; intros; lra. }
  rewrite !Hle, !Hlt, !Hge, !Hgt.
  assert (H1 : (inject_Z (k + 1) == inject_Z k + 1)%Q)
    by (rewrite inject_Z_plus; reflexivity).
  assert (H2 : (inject_Z (k - 1) == inject_Z k - 1)%Q).
  { unfold Z.sub. rewrite inject_Z_plus. reflexivity. }
  rewrite H1, H2.
  change (inject_Z (-1)) with (-1)%Q. change (inject_Z 1) with 1%Q.
  split; intros [(? & ? & ?) | [(? & ? & ?) | (? & ? & ?)]];
    [left | right; left | right; right | left | right; left | right; right];
    (split; [done |]); split; lra.
Qed.

Section Bins.
Context `{Externals}.

(** X2.  Which ranges and angles land in bin [k] (an int16 value), for a
    positive cell size: for [k >= 1] the half-open cell
    [[off + k * size, off + (k + 1) * size)], for [k <= -1] the cell
    [(off + (k - 1) * size, off + k * size]], and for [k = 0] the open
    interval [(off - size, off + size)], twice as wide as the others; [off]
    is [min_dist] for the range bin and [- max_theta] for the angular bin. *)
Theorem grid_bins_cells (c : Config) (k : Z) :
  -32768 <= k <= 32767 →
  (∀ d, (0 < dist_grid_size c)%Q →
     range_bin c d = Some k
     ↔ bin_cell (min_dist c) (dist_grid_size c) d k)
  ∧ (∀ x d t, (0 < theta_grid_size c)%Q → theta_of x d = Some t →
       angular_bin c x d = Some k
       ↔ bin_cell (- max_theta c) (theta_grid_size c) t k).
Proof.
  intros Hk. split.
  - intros d Hs. rewrite range_bin_Some.
    rewrite <- (Qtrunc_bin_cell ((d - min_dist c) / dist_grid_size c))
      by (try done; field; lra).
    split; [by intros (_ & -> & _) |].
    intros <-. split; [lra | done].
  - intros x d t Hs Ht. unfold angular_bin. rewrite Ht. simpl.
    unfold np_divide.
    destruct (Qeq_bool (theta_grid_size c) 0) eqn:Hz;
      [apply Qeq_bool_iff in Hz; lra |]. simpl.
    rewrite astype_int16_Some.
    rewrite <- (Qtrunc_bin_cell ((t + max_theta c) / theta_grid_size c))
      by (try done; field; lra).
    split; [by intros [-> _] | by intros <-].
Qed.
End Bins.

Section ZeroCell.
Context `{Externals}.

Lemma gridding_range_undefined (f : Frame) (i : nat) (d : Q) :
  distXY f !! i = Some d → range_bin (cfg f) d = None →
  gridding f = Error UndefinedCast.
Proof.
  intros Hd Hnone. unfold gridding.
  destruct (mapM (λ a : Vec3 * Q, theta_of _ _) _) as [th|]; [| done].
  destruct (mapM (λ a : Vec3 * Q, angular_bin _ _ _) _) as [xs|]; [| done].
  destruct (mapM (range_bin _) _) as [ys|] eqn:Hy; [| done].
  apply mapM_Some in Hy.
  destruct (Forall2_lookup_l _ _ _ _ _ Hy Hd) as (v & _ & Hv). congruence.
Qed.

(** X3.  With a cell size of zero ([dist_grid_size] or [theta_grid_size])
    the quotient of every point is a division by zero: on a frame that holds
    a point, gridding has no defined bins. *)
Theorem gridding_zero_cell_size (f : Frame) (i : nat) (p : Vec3) (d : Q) :
  pos f !! i = Some p → distXY f !! i = Some d →
  (dist_grid_size (cfg f) == 0)%Q ∨ (theta_grid_size (cfg f) == 0)%Q →
  gridding f = Error UndefinedCast.
Proof.
  intros Hp Hd [Hz | Hz].
  - apply (gridding_range_undefined f i d Hd).
    destruct (range_bin (cfg f) d) as [v|] eqn:Hv; [| done].
    by apply range_bin_Some in Hv as [? _].
  - apply (gridding_undefined f i p d Hp Hd).
    destruct (angular_bin (cfg f) (vx p) d) as [v|] eqn:Hv; [| done].
    by apply angular_bin_Some in Hv as (_ & _ & _ & ? & _).
Qed.
End ZeroCell.

(** ** Ground detection: candidates, flags and the local phase *)

Lemma np_clip_le_hi (v lo hi : Q) : (np_clip v lo hi <= hi)%Q.
Proof. unfold np_clip. apply Q.le_min_r. Qed.

Lemma np_clip_ge_lo (v lo hi : Q) : (lo <= hi)%Q → (lo <= np_clip v lo hi)%Q.
Proof.
  intros Hle. unfold np_clip. apply Q.min_glb; [apply Q.le_max_r | done].
Qed.

Lemma np_clip_inverted (v lo hi : Q) : (hi < lo)%Q → (np_clip v lo hi == hi)%Q.
Proof.
  intros Hlt. unfold np_clip. apply Q.min_r.
  eapply Qle_trans; [apply Qlt_le_weak, Hlt | apply Q.le_max_r].
Qed.

(** X4.  The tolerance of the ground candidates never exceeds [dz_global] and,
    when [dz_local <= dz_global], never falls below [dz_local], whatever the
    range of the point: a candidate has [|z + lidar_height| < dz_global], and
    a point with [|z + lidar_height| < dz_local] is a candidate. *)
Theorem candidate_tolerance (f : Frame) (i : nat) (p : Vec3) (d : Q) :
  pos f !! i = Some p → distXY f !! i = Some d →
  (i ∈ grd_candidates f →
     (Qabs (vz p + lidar_height (cfg f)) < dz_global (cfg f))%Q)
  ∧ ((dz_local (cfg f) <= dz_global (cfg f))%Q →
     (Qabs (vz p + lidar_height (cfg f)) < dz_local (cfg f))%Q →
     i ∈ grd_candidates f).
Proof.
  intros Hp Hd.
  assert (Hc : i ∈ grd_candidates f
               ↔ (Qabs (vz p + lidar_height (cfg f))
                  < np_clip (d * max_slope (cfg f)) (dz_local (cfg f))
                            (dz_global (cfg f)))%Q).
  { unfold grd_candidates. rewrite elem_of_np_where.
    unfold grd_candidates_mask. rewrite lookup_zip_with, Hp. simpl.
    rewrite Hd. simpl. rewrite <- Qltb_lt.
    split; [by intros [= ->] | by intros ->]. }
  split.
  - intros Hin%Hc. eapply Qlt_le_trans; [done | apply np_clip_le_hi].
  - intros Hle Hlt. apply Hc.
    eapply Qlt_le_trans; [done | by apply np_clip_ge_lo].
Qed.

Section Slope.
Context `{Externals}.

Lemma Qabs_dot_le (x y a b s : Q) :
  (- s <= a)%Q → (a <= s)%Q → (- s <= b)%Q → (b <= s)%Q →
  (Qabs (x * a + y * b) <= s * (Qabs x + Qabs y))%Q.
Proof.
  intros Ha1 Ha2 Hb1 Hb2.
  assert (Ha : (Qabs a <= s)%Q) by (apply Qabs_Qle_condition; split; done).
  assert (Hb : (Qabs b <= s)%Q) by (apply Qabs_Qle_condition; split; done).
  eapply Qle_trans; [apply Qabs_triangle |]. rewrite !Qabs_Qmult.
  pose proof (Qabs_nonneg x) as Hx. pose proof (Qabs_nonneg y) as Hy.
  assert (Hxa : (Qabs x * Qabs a <= Qabs x * s)%Q)
    by (rewrite !(Qmult_comm (Qabs x)); by apply Qmult_le_compat_r).
  assert (Hyb : (Qabs y * Qabs b <= Qabs y * s)%Q)
    by (rewrite !(Qmult_comm (Qabs y)); by apply Qmult_le_compat_r).
  lra.
Qed.

(** X9.  The local plane keeps the fitted intercept; for [max_slope >= 0] its
    two slopes lie in [[-max_slope, max_slope]], so the local height of a
    point differs from [z - c] by at most [max_slope * (|x| + |y|)]; for a
    negative [max_slope] the clip bounds are inverted and both slopes become
    [max_slope] itself. *)
Theorem local_slope_clipped (f : Frame) (fit : list nat) :
  let raw := plane_fit (take_at (pos f) fit) in
  let par := local_par f fit in
  vz par = vz raw
  ∧ ((0 <= max_slope (cfg f))%Q →
       (- max_slope (cfg f) <= vx par)%Q ∧ (vx par <= max_slope (cfg f))%Q
       ∧ (- max_slope (cfg f) <= vy par)%Q ∧ (vy par <= max_slope (cfg f))%Q
       ∧ ∀ p, (Qabs (local_height par p - (vz p - vz raw))
               <= max_slope (cfg f) * (Qabs (vx p) + Qabs (vy p)))%Q)
  ∧ ((max_slope (cfg f) < 0)%Q →
       (vx par == max_slope (cfg f))%Q ∧ (vy par == max_slope (cfg f))%Q).
Proof.
  intros raw par.
  assert (Hz : vz par = vz raw) by reflexivity.
  assert (Hc : (0 <= max_slope (cfg f))%Q →
       (- max_slope (cfg f) <= vx par)%Q ∧ (vx par <= max_slope (cfg f))%Q
       ∧ (- max_slope (cfg f) <= vy par)%Q ∧ (vy par <= max_slope (cfg f))%Q).
  { intros Hs. unfold par, local_par. fold raw. cbn [vx vy vz fst snd].
    assert (Hle : (- max_slope (cfg f) <= max_slope (cfg f))%Q) by lra.
    repeat split; first [apply np_clip_le_hi | by apply np_clip_ge_lo]. }
  split; [done |]. split.
  - intros Hs. destruct (Hc Hs) as (Ha1 & Ha2 & Hb1 & Hb2).
    do 4 (split; [done |]). intros p.
    pose proof (Qabs_dot_le (vx p) (vy p) (vx par) (vy par) _
                  Ha1 Ha2 Hb1 Hb2) as Hdot.
    assert (Heq : (local_height par p - (vz p - vz raw)
                   == - (vx p * vx par + vy p * vy par))%Q)
      by (unfold local_height; rewrite Hz; ring).
    rewrite Heq, Qabs_opp. exact Hdot.
  - intros Hs. unfold par, local_par. fold raw. cbn [vx vy vz fst snd].
    split; apply np_clip_inverted; lra.
Qed.
End Slope.

Lemma foldl_inv {A B} (P : A → Prop) (step : A → B → A) (l : list B) (a : A) :
  P a → (∀ a b, P a → P (step a b)) → P (foldl step a l).
Proof.
  intros Ha Hstep. revert a Ha.
  induction l as [|b l IH]; intros a Ha; [done |]. simpl. auto.
Qed.

Lemma Forall_set_at {A} (P : A → Prop) (idx : list nat) (g : nat → A → A)
    (l : list A) :
  (∀ i a, P a → P (g i a)) → Forall P l → Forall P (set_at idx g l).
Proof.
  intros Hg Hl. apply Forall_lookup. intros i x.
  rewrite lookup_set_at. destruct (l !! i) as [a|] eqn:Ha; [| done].
  simpl. intros [= <-].
  pose proof (proj1 (Forall_lookup P l) Hl i a Ha).
  destruct (decide _); auto.
Qed.

Lemma lookup_set_at_out {A} (idx : list nat) (g : nat → A → A) (l : list A) i :
  i ∉ idx → set_at idx g l !! i = l !! i.
Proof.
  intros Hi. rewrite lookup_set_at. destruct (l !! i); [| done].
  simpl. by rewrite decide_False.
Qed.

Lemma lookup_set_at_in {A} (idx : list nat) (g : nat → A → A) (l : list A) i a :
  i ∈ idx → l !! i = Some a → set_at idx g l !! i = Some (g i a).
Proof.
  intros Hi Ha. rewrite lookup_set_at, Ha. simpl. by rewrite decide_True.
Qed.

Lemma elem_of_compress_sub {A} (m : list bool) (l : list A) (x : A) :
  x ∈ compress m l → x ∈ l.
Proof.
  intros (k & _ & Hk)%elem_of_compress. by eapply list_elem_of_lookup_2.
Qed.

Section GroundInvariants.
Context `{Externals}.

(** An induction principle for the two loops of the local phase. *)
Lemma ground_detection_inv (P : Frame → Prop) (f : Frame) :
  P (ground_detection_global f) →
  (∀ in_y nearby_y g ix, P g → P (refine_cell in_y nearby_y g ix)) →
  P (ground_detection f).
Proof.
  intros Hbase Hstep. unfold ground_detection.
  apply foldl_inv; [done |]. intros g iy Hg. unfold refine_row.
  destruct (_ <? _); [done |]. apply foldl_inv; [done |]. auto.
Qed.

(** Ground detection rewrites the heights and the flags, nothing else. *)
Lemma ground_detection_form (f : Frame) :
  ∃ h fl, ground_detection f = set_ground f h fl.
Proof.
  apply ground_detection_inv.
  - unfold ground_detection_global. eauto.
  - intros in_y nearby_y g ix (h & fl & ->). unfold refine_cell.
    destruct (_ <? _); [eauto |]. eexists _, _. reflexivity.
Qed.

Lemma ground_detection_reset (f : Frame) (h : list Q) (fl : list Z) :
  ground_detection (set_ground f h fl) = ground_detection f.
Proof. reflexivity. Qed.
End GroundInvariants.

Section GroundProperties.
Context `{Externals}.

Lemma refine_cell_cfg (in_y nearby_y : list bool) (g : Frame) (ix : Z) :
  cfg (refine_cell in_y nearby_y g ix) = cfg g.
Proof. unfold refine_cell. by destruct (_ <? _). Qed.

(** X5.  After ground detection every entry of [flags] is [0] or
    [_IS_GROUND]: no other bit is ever set, whatever the flags were before. *)
Theorem ground_flags_binary (f : Frame) (i : nat) (v : Z) :
  flags (ground_detection f) !! i = Some v → v = 0 ∨ v = _IS_GROUND.
Proof.
  revert i v.
  cut (Forall (λ v, v = 0 ∨ v = _IS_GROUND) (flags (ground_detection f))).
  { intros Hall i v Hv. by eapply (proj1 (Forall_lookup _ _) Hall). }
  apply (ground_detection_inv
           (λ g, Forall (λ v, v = 0 ∨ v = _IS_GROUND) (flags g))).
  - unfold ground_detection_global. simpl. apply Forall_set_at.
    + intros _ a [-> | ->]; by right.
    + apply Forall_replicate. by left.
  - intros in_y nearby_y g ix Hg. unfold refine_cell.
    destruct (_ <? _); [done |]. simpl. apply Forall_set_at.
    + intros _ a [-> | ->]; by right.
    + apply Forall_set_at; [| done]. intros _ a _. by left.
Qed.

Lemma ground_flag_low (f : Frame) (i : nat) (v : Z) (h : Q) :
  flags (ground_detection f) !! i = Some v → has_ground v = true →
  h_arr (ground_detection f) !! i = Some h →
  (h < dz_local (cfg f))%Q.
Proof.
  revert i v h.
  cut (cfg (ground_detection f) = cfg f
       ∧ ∀ i v h, flags (ground_detection f) !! i = Some v →
           has_ground v = true → h_arr (ground_detection f) !! i = Some h →
           (h < dz_local (cfg f))%Q).
  { intros [_ Hall]. exact Hall. }
  apply (ground_detection_inv
           (λ g, cfg g = cfg f
                 ∧ ∀ i v h, flags g !! i = Some v → has_ground v = true →
                     h_arr g !! i = Some h → (h < dz_local (cfg f))%Q)).
  - split; [done |]. intros i v h Hv Hgr Hh.
    apply (ground_global_flag f) in Hv. apply Hv in Hgr as [_ Hlt].
    unfold ground_detection_global in Hh. simpl in Hh.
    rewrite (list_lookup_total_correct _ _ _ Hh) in Hlt. by apply Qltb_lt.
  - intros in_y nearby_y g ix [Hcfg Hg].
    split; [by rewrite refine_cell_cfg |].
    unfold refine_cell. destruct (_ <? _); [done |]. simpl.
    set (idx := local_idx g in_y ix).
    set (hs := set_at idx _ (h_arr g)).
    rewrite <- list_fmap_compose. intros i v h Hv Hgr Hh.
    pose proof (elem_of_compress_test (on_plane (cfg g)) hs idx i) as Hon.
    pose proof (elem_of_compress_test (negb ∘ on_plane (cfg g)) hs idx i)
      as Hoff.
    rewrite (list_lookup_total_correct _ _ _ Hh) in Hon, Hoff.
    simpl in Hoff.
    destruct (decide (i ∈ idx)) as [Hin | Hout].
    + destruct (on_plane (cfg g) h) eqn:Hp.
      * apply on_plane_iff in Hp as [_ Hp]. by rewrite <- Hcfg.
      * exfalso. rewrite lookup_set_at_out in Hv
          by (intros [_ ?]%Hon; congruence).
        rewrite lookup_set_at in Hv.
        destruct (flags g !! i) as [v0|]; [| done]. simpl in Hv.
        rewrite decide_True in Hv by (apply Hoff; done).
        injection Hv as <-. done.
    + rewrite !lookup_set_at_out in Hv
        by (intros ?%elem_of_compress_sub; done).
      unfold hs in Hh. rewrite lookup_set_at_out in Hh by done. eauto.
Qed.

(** X6.  After ground detection, a point that carries the ground bit has a
    height below [dz_local], be the bit from the global or from a local
    fit. *)
Theorem ground_flag_below_dz_local (f : Frame) (i : nat) (v : Z) (h : Q) :
  flags (ground_detection f) !! i = Some v → has_ground v = true →
  h_arr (ground_detection f) !! i = Some h →
  (h < dz_local (cfg f))%Q.
Proof. apply ground_flag_low. Qed.

(** X7.  Ground detection does not read the heights and the flags it is about
    to overwrite: its result is the same from any previous heights and flags,
    and running it twice is running it once. *)
Theorem ground_detection_idempotent (f : Frame) :
  (∀ h fl, ground_detection (set_ground f h fl) = ground_detection f)
  ∧ ground_detection (ground_detection f) = ground_detection f.
Proof.
  split; [intros h fl; apply ground_detection_reset |].
  destruct (ground_detection_form f) as (h & fl & Hf).
  transitivity (ground_detection (set_ground f h fl));
    [by rewrite <- Hf | apply ground_detection_reset].
Qed.
End GroundProperties.

Section GroundUntouched.
Context `{Externals}.

Lemma refine_cell_same_grid (in_y nearby_y : list bool) (f g : Frame) (ix : Z) :
  same_grid f g → same_grid f (refine_cell in_y nearby_y g ix).
Proof. unfold refine_cell. by destruct (_ <? _). Qed.

Lemma refine_cell_other (in_y nearby_y : list bool) (g : Frame) (ix : Z) (i : nat) :
  i ∉ local_idx g in_y ix →
  h_arr (refine_cell in_y nearby_y g ix) !! i = h_arr g !! i
  ∧ flags (refine_cell in_y nearby_y g ix) !! i = flags g !! i.
Proof.
  intros Hout. unfold refine_cell. destruct (_ <? _); [done |]. simpl.
  split; [by apply lookup_set_at_out |].
  by rewrite !lookup_set_at_out by (intros ?%elem_of_compress_sub; done).
Qed.

Lemma refine_cells_other (f g : Frame) (iy : Z) (ixs : list Z) (i : nat) :
  same_grid f g →
  (∀ ix, ix ∈ ixs → ¬ (x_idx f !! i = Some ix ∧ y_idx f !! i = Some iy)) →
  let g' := foldl (refine_cell (in_y_mask f iy) (nearby_y_mask f iy)) g ixs in
  same_grid f g'
  ∧ h_arr g' !! i = h_arr g !! i ∧ flags g' !! i = flags g !! i.
Proof.
  revert g. induction ixs as [|ix ixs IH]; intros g Hsg Hno; [done |].
  simpl.
  destruct (IH (refine_cell (in_y_mask f iy) (nearby_y_mask f iy) g ix))
    as (Hsg' & -> & ->).
  - by apply refine_cell_same_grid.
  - intros ix' Hix'. apply Hno. by right.
  - split; [done |]. apply refine_cell_other.
    intros Hin. apply (Hno ix); [left |].
    destruct Hsg as (_ & Hx & _). unfold local_idx in Hin. rewrite Hx in Hin.
    by apply (elem_of_local_idx f ix iy i).
Qed.

Lemma refine_rows_other (f g : Frame) (iys : list Z) (i : nat) :
  same_grid f g →
  (∀ x y, x_idx f !! i = Some x → y_idx f !! i = Some y → y ∈ iys →
          ¬ (0 <= x < n_angular_grids (cfg f)
             ∧ min_grd_pts (cfg f) <= mask_sum (in_y_mask f y))) →
  let g' := foldl refine_row g iys in
  same_grid f g'
  ∧ h_arr g' !! i = h_arr g !! i ∧ flags g' !! i = flags g !! i.
Proof.
  revert g. induction iys as [|iy iys IH]; intros g Hsg Hno; [done |].
  simpl.
  assert (Hrow : same_grid f (refine_row g iy)
                 ∧ h_arr (refine_row g iy) !! i = h_arr g !! i
                 ∧ flags (refine_row g iy) !! i = flags g !! i).
  { unfold refine_row. destruct Hsg as (Hc & Hx & Hy).
    assert (Hin : in_y_mask g iy = in_y_mask f iy)
      by (unfold in_y_mask; by rewrite Hy).
    assert (Hnear : nearby_y_mask g iy = nearby_y_mask f iy)
      by (unfold nearby_y_mask; by rewrite Hy).
    rewrite Hin, Hnear, Hc.
    destruct (mask_sum (in_y_mask f iy) <? min_grd_pts (cfg f)) eqn:Hskip;
      [done |].
    apply Z.ltb_ge in Hskip. apply refine_cells_other; [done |].
    intros ix Hix%elem_of_py_range [Hxi Hyi].
    apply (Hno ix iy Hxi Hyi); [left |]. split; [lia | done]. }
  destruct Hrow as (Hsg' & Hh & Hfl).
  destruct (IH (refine_row g iy) Hsg') as (? & -> & ->).
  - intros x y Hx Hy Hin. apply (Hno x y Hx Hy). by right.
  - done.
Qed.

(** X8.  A point whose cell lies outside the configured grid (a bin below
    [0], an angular bin from [n_angular_grids] on, a range bin from
    [n_dist_grids] on), or in a range row of fewer than [min_grd_pts] points,
    is never touched by the local phase: it keeps the height and the flag of
    the global plane. *)
Theorem unrefinable_point_keeps_global (f : Frame) (i : nat) :
  (∀ x y, x_idx f !! i = Some x → y_idx f !! i = Some y → ¬ refinable f x y) →
  h_arr (ground_detection f) !! i = h_arr (ground_detection_global f) !! i
  ∧ flags (ground_detection f) !! i = flags (ground_detection_global f) !! i.
Proof.
  intros Hno. unfold ground_detection.
  destruct (refine_rows_other f (ground_detection_global f)
              (py_range 0 (n_dist_grids (cfg f))) i) as (_ & Hh & Hfl).
  - done.
  - intros x y Hx Hy Hin%elem_of_py_range [Hxr Hcnt].
    apply (Hno x y Hx Hy). split; [done |]. split; [lia | done].
  - done.
Qed.
End GroundUntouched.

(** ** Clustering: reset, borders and dense blocks *)

Lemma clustering_reset (f : Frame) (c : list Z) :
  clustering (set_cid_arr f c) = clustering f.
Proof. reflexivity. Qed.

(** X10.  Clustering starts from zeroed ids: its result does not depend on
    the ids the frame held, and clustering a clustered frame returns the same
    frame. *)
Theorem clustering_idempotent (f : Frame) :
  (∀ c, clustering (set_cid_arr f c) = clustering f)
  ∧ (∀ f1, clustering f = Ok f1 → clustering f1 = Ok f1).
Proof.
  split; [apply clustering_reset |]. intros f1 Hc.
  destruct (clustering_Ok f f1 Hc) as (r & _ & Hf1).
  rewrite Hf1 at 1. by rewrite clustering_reset.
Qed.

Lemma sweep_lookup (f : Frame) (blocks : list (Z * Z)) (st : list Z * Z)
    (i : nat) :
  (sweep f st blocks).1 !! i = st.1 !! i
  ∨ ∃ b, b ∈ blocks ∧ in_grid_mask f b.1 b.2 !! i = Some true.
Proof.
  revert st. induction blocks as [|b bs IH]; intros st; [by left |].
  cbn [sweep foldl]. fold (sweep f (cluster_block f b.1 st b.2) bs).
  destruct (IH (cluster_block f b.1 st b.2)) as [Heq | (b' & Hb' & Hin)].
  - destruct (decide (in_grid_mask f b.1 b.2 !! i = Some true)) as [Hin | Hout].
    + right. exists b. split; [left | done].
    + left. rewrite Heq. by apply cluster_block_outside.
  - right. exists b'. split; [by right | done].
Qed.

(** X11.  A point labelled by clustering has its angular bin in
    [[xmin, xmax)] and its range bin in [[ymin, ymax)]: the points of the
    largest occupied angular bin and of the largest occupied range bin are
    never labelled. *)
Theorem clustering_skips_last_bins (f f' : Frame) (i : nat) (c : Z) :
  clustering f = Ok f' → cid_arr f' !! i = Some c → c ≠ 0 →
  ∃ x y xmin xmax ymin ymax,
    x_idx f !! i = Some x ∧ y_idx f !! i = Some y
    ∧ np_min (x_idx f) = Some xmin ∧ np_max (x_idx f) = Some xmax
    ∧ np_min (y_idx f) = Some ymin ∧ np_max (y_idx f) = Some ymax
    ∧ xmin <= x < xmax ∧ ymin <= y < ymax.
Proof.
  intros (r & Hr & ->)%clustering_Ok Hc Hne. cbn [cid_arr set_cid_arr] in Hc.
  apply sweep_ranges_Ok in Hr
    as (xmin & xmax & ymin & ymax & Hxmin & Hxmax & Hymin & Hymax & ->).
  cbn [fst snd] in Hc.
  destruct (sweep_lookup f (sweep_blocks (py_range (xmin + 1) xmax)
                                         (py_range (ymin + 1) ymax))
              (replicate (n_points f) 0, 1) i) as [Heq | ([ix iy] & Hb & Hin)].
  - rewrite Heq in Hc. cbn [fst] in Hc.
    apply lookup_replicate in Hc as [-> _]. done.
  - apply elem_of_sweep_blocks in Hb as [Hix%elem_of_py_range Hiy%elem_of_py_range].
    apply lookup_in_grid_mask in Hin as ((x & Hx & Hxv) & (y & Hy & Hyv) & _).
    simpl in Hxv, Hyv.
    exists x, y, xmin, xmax, ymin, ymax. repeat split; try done; lia.
Qed.

Lemma sweep_cons (f : Frame) (st : list Z * Z) (b : Z * Z) (bs : list (Z * Z)) :
  sweep f st (b :: bs) = sweep f (cluster_block f b.1 st b.2) bs.
Proof. reflexivity. Qed.

Lemma sweep_next_ge (f : Frame) (blocks : list (Z * Z)) (st : list Z * Z) :
  st.2 <= (sweep f st blocks).2.
Proof.
  destruct (issued_consecutive f blocks st) as [_ ->]. lia.
Qed.

Lemma to_uint16_small (v : Z) : 1 <= v < 65536 → to_uint16 v ≠ 0.
Proof. intros Hv. unfold to_uint16. rewrite Z.mod_small; lia. Qed.

Lemma cluster_block_keeps (f : Frame) (ix iy : Z) (st : list Z * Z)
    (i : nat) (c : Z) :
  1 <= st.2 → (cluster_block f ix st iy).2 <= 65536 →
  st.1 !! i = Some c → c ≠ 0 →
  ∃ c', (cluster_block f ix st iy).1 !! i = Some c' ∧ c' ≠ 0.
Proof.
  intros Hlo Hhi Hc Hne. revert Hhi. unfold cluster_block.
  destruct (mask_sum _ <? 1); [eauto |].
  destruct (0 <? _) eqn:Hpos.
  - intros _. cbn [fst]. rewrite lookup_mask_assign, Hc. simpl.
    destruct (decide _); [| eauto]. apply Z.ltb_lt in Hpos.
    eexists. split; [done | lia].
  - destruct (min_samples _ <=? _); [| eauto]. cbn [fst snd]. intros Hhi.
    rewrite lookup_mask_assign, Hc. simpl.
    destruct (decide _); [| eauto].
    eexists. split; [done |]. apply to_uint16_small. lia.
Qed.

Lemma sweep_keeps (f : Frame) (blocks : list (Z * Z)) (st : list Z * Z)
    (i : nat) (c : Z) :
  1 <= st.2 → (sweep f st blocks).2 <= 65536 →
  st.1 !! i = Some c → c ≠ 0 →
  ∃ c', (sweep f st blocks).1 !! i = Some c' ∧ c' ≠ 0.
Proof.
  revert st c. induction blocks as [|b bs IH]; intros st c Hlo Hhi Hc Hne;
    [eauto |].
  rewrite sweep_cons in Hhi |- *.
  pose proof (sweep_next_ge f bs (cluster_block f b.1 st b.2)) as Hmono.
  destruct (cluster_block_keeps f b.1 b.2 st i c) as (c1 & Hc1 & Hne1);
    [done | lia | done.. |].
  apply (IH _ c1); [| done..].
  destruct (cluster_block_next f b.1 b.2 st); lia.
Qed.

Lemma cluster_block_labels (f : Frame) (ix iy : Z) (st : list Z * Z) (i : nat) :
  1 <= st.2 → (cluster_block f ix st iy).2 <= 65536 →
  min_samples (cfg f) <= mask_sum (in_grid_mask f ix iy) →
  in_grid_mask f ix iy !! i = Some true → is_Some (st.1 !! i) →
  ∃ c', (cluster_block f ix st iy).1 !! i = Some c' ∧ c' ≠ 0.
Proof.
  intros Hlo Hhi Hocc Hin [a Ha]. revert Hhi. unfold cluster_block.
  rewrite (proj2 (mask_sum_ge_1 _)) by eauto.
  destruct (0 <? _) eqn:Hpos.
  - intros _. cbn [fst]. rewrite (lookup_mask_assign_in _ _ a) by done.
    apply Z.ltb_lt in Hpos. eexists. split; [done | lia].
  - rewrite (proj2 (Z.leb_le _ _) Hocc). cbn [fst snd]. intros Hhi.
    rewrite (lookup_mask_assign_in _ _ a) by done.
    eexists. split; [done |]. apply to_uint16_small. lia.
Qed.

(** X12.  As long as the id counter stays within [2^16], every band point
    of a swept block that holds at least [min_samples] band points ends with
    a nonzero cluster id: later blocks relabel, they never erase. *)
Theorem dense_block_labelled (f f' : Frame) (xs ys : list Z) (ix iy : Z) (i : nat) :
  aligned f → clustering f = Ok f' → sweep_ranges f = Ok (xs, ys) →
  (clustering_state f xs ys).2 <= 65536 →
  ix ∈ xs → iy ∈ ys →
  min_samples (cfg f) <= mask_sum (in_grid_mask f ix iy) →
  in_grid_mask f ix iy !! i = Some true →
  ∃ c, cid_arr f' !! i = Some c ∧ c ≠ 0.
Proof.
  intros Hal (r & Hr & ->)%clustering_Ok Hr' Hmax Hix Hiy Hocc Hin.
  rewrite Hr in Hr'. injection Hr' as ->. cbn [fst snd cid_arr set_cid_arr].
  rewrite clustering_state_sweep in Hmax.
  assert (Hb : (ix, iy) ∈ sweep_blocks xs ys) by by apply elem_of_sweep_blocks.
  apply list_elem_of_split in Hb as (pre & post & Hsplit).
  rewrite Hsplit, sweep_app, sweep_cons in Hmax |- *.
  cbn [fst snd] in Hmax |- *.
  set (init := (replicate (n_points f) 0, 1)) in *.
  pose proof (sweep_inv_sweep f pre init (sweep_inv_init f))
    as (Hlen & Hnext & _ & _).
  set (st := sweep f init pre) in *.
  pose proof (sweep_next_ge f post (cluster_block f ix st iy)) as Hmono.
  destruct (cluster_block_labels f ix iy st i) as (c1 & Hc1 & Hne1);
    [done | lia | done | done | |].
  { apply lookup_lt_is_Some. rewrite Hlen.
    apply lookup_in_grid_mask in Hin as (_ & _ & Hi).
    apply lookup_lt_Some in Hi. unfold h_cut_mask in Hi.
    rewrite length_fmap in Hi. destruct Hal as (_ & _ & <- & _). done. }
  apply (sweep_keeps f post _ i c1); [| done..].
  destruct (cluster_block_next f ix iy st); lia.
Qed.

(** ** Cluster growing: ids, heights and degenerate layers *)

Lemma grow_cells_lookup (f : Frame) (cid : Z) (L : list bool)
    (grids : list (Z * Z)) (st : list Z * list bool) (i : nat) (c' : Z) :
  (foldl (grow_cell f cid L) st grids).1 !! i = Some c' →
  st.1 !! i = Some c' ∨ (c' = cid ∧ L !! i = Some true).
Proof.
  revert st. induction grids as [|g grids IH]; intros st; [by left |].
  simpl. intros [Hc | Hc]%IH; [| by right].
  unfold grow_cell in Hc. cbn [fst] in Hc.
  rewrite lookup_mask_assign in Hc.
  destruct (st.1 !! i) as [a|]; [| done]. simpl in Hc.
  destruct (decide _) as [Hn | _]; [| by left].
  injection Hc as <-. right. split; [done |].
  unfold nearby_mask in Hn. by apply lookup_mask_and in Hn as [_ ?].
Qed.

Lemma length_grow_cells (f : Frame) (cid : Z) (L : list bool)
    (grids : list (Z * Z)) (st : list Z * list bool) :
  length (foldl (grow_cell f cid L) st grids).1 = length st.1.
Proof.
  revert st. induction grids as [|g grids IH]; intros st; [done |].
  simpl. rewrite IH. apply length_mask_assign.
Qed.

Lemma grow_layers_lookup (f : Frame) (cid : Z) (layers : list Q)
    (grids : list (Z * Z)) (cids : list Z) (i : nat) (c' : Z) :
  grow_layers f cid grids layers cids !! i = Some c' →
  cids !! i = Some c'
  ∨ (c' = cid ∧ ∃ h0, h0 ∈ layers ∧ in_layer_mask f h0 !! i = Some true).
Proof.
  revert grids cids. induction layers as [|h0 layers IH]; intros grids cids;
    [by left |].
  cbn [grow_layers].
  assert (Hl : ∀ c, (grow_layer f cid grids cids h0).1 !! i = Some c →
                 cids !! i = Some c
                 ∨ (c = cid ∧ ∃ h1, h1 ∈ h0 :: layers
                                   ∧ in_layer_mask f h1 !! i = Some true)).
  { intros c [Hc | [-> Hc]]%grow_cells_lookup; [by left | right].
    split; [done |]. exists h0. split; [left | done]. }
  destruct (mask_sum _ <? 1); [apply Hl |].
  intros [Hc | [-> (h1 & Hh1 & Hin)]]%IH; [by apply Hl | right].
  split; [done |]. exists h1. split; [by right | done].
Qed.

Lemma length_grow_layers (f : Frame) (cid : Z) (layers : list Q)
    (grids : list (Z * Z)) (cids : list Z) :
  length (grow_layers f cid grids layers cids) = length cids.
Proof.
  revert grids cids. induction layers as [|h0 layers IH]; intros grids cids;
    [done |].
  cbn [grow_layers].
  assert (length (grow_layer f cid grids cids h0).1 = length cids)
    by apply length_grow_cells.
  destruct (mask_sum _ <? 1); [done |]. by rewrite IH.
Qed.

Lemma grow_cid_lookup (f : Frame) (cids cids' : list Z) (cid : Z) (i : nat) (c' : Z) :
  grow_cid f cids cid = Ok cids' → cids' !! i = Some c' →
  cids !! i = Some c' ∨ (c' = cid ∧ in_some_layer f i).
Proof.
  unfold grow_cid. destruct (mask_sum _ <? 1); [intros [= <-]; by left |].
  destruct (np_arange _ _ _) as [layers|] eqn:Har; [| done]. simpl.
  intros [= <-] [Hc | [-> (h0 & Hh0 & Hin)]]%grow_layers_lookup;
    [by left | right].
  split; [done |]. by exists layers, h0.
Qed.

Lemma length_grow_cid (f : Frame) (cids cids' : list Z) (cid : Z) :
  grow_cid f cids cid = Ok cids' → length cids' = length cids.
Proof.
  unfold grow_cid. destruct (mask_sum _ <? 1); [by intros [= <-] |].
  destruct (np_arange _ _ _) as [layers|]; [| done]. simpl.
  intros [= <-]. apply length_grow_layers.
Qed.

Lemma grow_cids_lookup (f : Frame) (ids : list Z) (cids cids' : list Z)
    (i : nat) (c' : Z) :
  grow_cids f cids ids = Ok cids' → cids' !! i = Some c' →
  cids !! i = Some c' ∨ (c' ∈ ids ∧ in_some_layer f i).
Proof.
  revert cids. induction ids as [|cid ids IH]; intros cids.
  - intros [= <-]. by left.
  - rewrite grow_cids_cons.
    destruct (grow_cid f cids cid) as [c|] eqn:Hc; [| done]. simpl.
    intros Hrest Hc'. destruct (IH _ Hrest Hc') as [Hmid | [Hin Hl]].
    + destruct (grow_cid_lookup _ _ _ _ _ _ Hc Hmid) as [? | [-> ?]];
        [by left | right]. split; [left | done].
    + right. split; [by right | done].
Qed.

Lemma length_grow_cids (f : Frame) (ids : list Z) (cids cids' : list Z) :
  grow_cids f cids ids = Ok cids' → length cids' = length cids.
Proof.
  revert cids. induction ids as [|cid ids IH]; intros cids.
  - by intros [= <-].
  - rewrite grow_cids_cons.
    destruct (grow_cid f cids cid) as [c|] eqn:Hc; [| done]. simpl.
    intros Hrest. rewrite (IH _ Hrest). by eapply length_grow_cid.
Qed.

(** The layers lie between [base_h_cut] and [h_max_cut + h_grid_size]. *)
Lemma in_some_layer_height (f : Frame) (i : nat) :
  in_some_layer f i →
  ∃ h, h_arr f !! i = Some h
     ∧ (0 < h_grid_size (cfg f))%Q
     ∧ (base_h_cut (cfg f) <= h)%Q
     ∧ (h < h_max_cut (cfg f) + h_grid_size (cfg f))%Q.
Proof.
  intros (layers & h0 & Har & [k Hk]%list_elem_of_lookup & Hin).
  apply np_arange_Ok in Har as (_ & _ & Hlayers).
  apply Hlayers in Hk as [-> Htop].
  apply lookup_in_layer_mask in Hin as (h & Hh & Hlo & Hhi).
  exists h. split; [done |].
  assert (Hpos : (0 < h_grid_size (cfg f))%Q) by lra.
  specialize (Htop Hpos).
  assert (0 <= inject_Z (Z.of_nat k) * h_grid_size (cfg f))%Q.
  { apply Qmult_le_0_compat; [| lra].
    change 0%Q with (inject_Z 0). rewrite <- Zle_Qle. lia. }
  repeat split; lra.
Qed.

(** X14.  Cluster growing creates no id: the array keeps its length, every
    final id is the one the point had or one of [1 .. max], and a labelled
    point stays labelled. *)
Theorem grow_cluster_ids (f f' : Frame) :
  grow_cluster f = Ok f' →
  ∃ cmax, np_max (cid_arr f) = Some cmax
    ∧ length (cid_arr f') = length (cid_arr f)
    ∧ (∀ i c', cid_arr f' !! i = Some c' →
         cid_arr f !! i = Some c' ∨ 1 <= c' <= cmax)
    ∧ (∀ i c, cid_arr f !! i = Some c → c ≠ 0 →
         ∃ c', cid_arr f' !! i = Some c' ∧ c' ≠ 0).
Proof.
  intros (cmax & cids & Hmax & Hg & ->)%grow_cluster_Ok.
  exists cmax. cbn [cid_arr set_cid_arr]. split; [done |].
  pose proof (length_grow_cids _ _ _ _ Hg) as Hlen. split; [done |].
  assert (Hids : ∀ i c', cids !! i = Some c' →
                   cid_arr f !! i = Some c' ∨ 1 <= c' <= cmax).
  { intros i c' Hc'.
    destruct (grow_cids_lookup _ _ _ _ _ _ Hg Hc') as [? | [Hin _]];
      [by left | right]. apply elem_of_seqZ in Hin. lia. }
  split; [done |]. intros i c Hc Hne.
  assert (is_Some (cids !! i)) as [c' Hc'].
  { apply lookup_lt_is_Some. rewrite Hlen. by eapply lookup_lt_Some. }
  exists c'. split; [done |].
  destruct (Hids i c' Hc') as [Heq | ?]; [congruence | lia].
Qed.

(** X15.  Cluster growing changes the id only of points whose height lies in
    [[base_h_cut, h_max_cut + h_grid_size)], and only for a positive
    [h_grid_size]. *)
Theorem grow_cluster_height_range (f f' : Frame) (i : nat) (c' : Z) :
  grow_cluster f = Ok f' →
  cid_arr f' !! i = Some c' → cid_arr f !! i ≠ Some c' →
  ∃ h, h_arr f !! i = Some h
     ∧ (0 < h_grid_size (cfg f))%Q
     ∧ (base_h_cut (cfg f) <= h)%Q
     ∧ (h < h_max_cut (cfg f) + h_grid_size (cfg f))%Q.
Proof.
  intros (cmax & cids & _ & Hg & ->)%grow_cluster_Ok Hc' Hne.
  cbn [cid_arr set_cid_arr] in Hc'.
  destruct (grow_cids_lookup _ _ _ _ _ _ Hg Hc') as [? | [_ Hl]]; [done |].
  by apply in_some_layer_height.
Qed.

Lemma grow_cids_no_seeds (f : Frame) (ids : list Z) (cids : list Z) :
  (∀ cid i, cid ∈ ids → seeds_mask f cids cid !! i ≠ Some true) →
  grow_cids f cids ids = Ok cids.
Proof.
  induction ids as [|cid ids IH]; intros Hno; [done |].
  rewrite grow_cids_cons. unfold grow_cid at 1.
  rewrite (proj2 (mask_sum_lt_1 _)) by (intros i; apply Hno; left).
  simpl. apply IH. intros cid' i Hin. apply Hno. by right.
Qed.

(** X16.  When no id of [1 .. max] has a seed (a point that carries it above
    [base_h_cut - dz_global]), cluster growing returns the ids unchanged, and
    the layers are not even computed. *)
Theorem grow_cluster_no_seeds (f : Frame) (cmax : Z) :
  np_max (cid_arr f) = Some cmax →
  (∀ cid i, 1 <= cid <= cmax →
     seeds_mask f (cid_arr f) cid !! i ≠ Some true) →
  grow_cluster f = Ok (set_cid_arr f (cid_arr f)).
Proof.
  intros Hmax Hno. unfold grow_cluster. rewrite Hmax. simpl.
  rewrite grow_cids_no_seeds; [done |].
  intros cid i Hin%elem_of_py_range. apply Hno. lia.
Qed.

Lemma grow_cids_zero_step (f : Frame) (ids : list Z) (cids : list Z) :
  (h_grid_size (cfg f) == 0)%Q →
  (∃ cid i, cid ∈ ids ∧ seeds_mask f cids cid !! i = Some true) →
  grow_cids f cids ids = Error ZeroStep.
Proof.
  intros Hz. induction ids as [|cid ids IH];
    [by intros (? & ? & ?%elem_of_nil & _) |].
  intros Hseed. rewrite grow_cids_cons. unfold grow_cid at 1.
  destruct (mask_sum (seeds_mask f cids cid) <? 1) eqn:Hs.
  - simpl. apply IH. destruct Hseed as (cid' & i & Hin & Hi).
    apply elem_of_cons in Hin as [-> | Hin]; [| eauto].
    exfalso. by apply (proj1 (mask_sum_lt_1 _) Hs i).
  - unfold np_arange. by rewrite (proj2 (Qeq_bool_iff _ _) Hz).
Qed.

(** X17.  With [h_grid_size] zero, cluster growing raises as soon as one id
    has a seed: the layers of [np.arange] have no step. *)
Theorem grow_cluster_zero_step (f : Frame) (cmax : Z) :
  (h_grid_size (cfg f) == 0)%Q →
  np_max (cid_arr f) = Some cmax →
  (∃ cid i, 1 <= cid <= cmax
     ∧ seeds_mask f (cid_arr f) cid !! i = Some true) →
  grow_cluster f = Error ZeroStep.
Proof.
  intros Hz Hmax (cid & i & Hcid & Hi). unfold grow_cluster.
  rewrite Hmax. simpl. rewrite grow_cids_zero_step; [done.. |].
  exists cid, i. split; [apply elem_of_py_range; lia | done].
Qed.

(** ** The stages in sequence, and the figure *)

Lemma mask_sum_disjoint (m1 m2 : list bool) (n : nat) :
  (length m1 <= n)%nat → (length m2 <= n)%nat →
  (∀ i, ¬ (m1 !! i = Some true ∧ m2 !! i = Some true)) →
  mask_sum m1 + mask_sum m2 <= Z.of_nat n.
Proof.
  intros H1 H2 Hdis. unfold mask_sum.
  cut (length (np_where m1 ++ np_where m2) <= length (seq 0 n))%nat.
  { rewrite length_app, length_seq. lia. }
  apply submseteq_length, NoDup_submseteq.
  - apply NoDup_app. split; [apply NoDup_np_where |].
    split; [| apply NoDup_np_where].
    intros i Hi1%elem_of_np_where Hi2%elem_of_np_where. by apply (Hdis i).
  - intros i [Hi | Hi]%elem_of_app; apply elem_of_np_where, lookup_lt_Some in Hi;
      apply elem_of_seq; lia.
Qed.

Section Pipeline.
Context `{Externals}.

Lemma ground_detection_aligned (f : Frame) :
  aligned f → aligned (ground_detection f).
Proof.
  intros (Hp & Hd & Hh & Hfl & Hc & Hx & Hy).
  destruct (ground_detection_lengths f) as (Hh' & Hfl' & _ & _).
  destruct (ground_detection_form f) as (h & fl & Hf).
  rewrite Hf in *. simpl in *. unfold aligned. simpl.
  repeat split; try done. by rewrite Hh'.
Qed.

Lemma clustering_aligned (f f' : Frame) :
  aligned f → clustering f = Ok f' → aligned f'.
Proof.
  intros (Hp & Hd & Hh & Hfl & Hc & Hx & Hy) (r & _ & ->)%clustering_Ok.
  unfold aligned. simpl. repeat split; try done.
  by destruct (sweep_inv_sweep f (sweep_blocks r.1 r.2) _ (sweep_inv_init f))
    as (? & _).
Qed.

Lemma grow_cluster_aligned (f f' : Frame) :
  aligned f → grow_cluster f = Ok f' → aligned f'.
Proof.
  intros (Hp & Hd & Hh & Hfl & Hc & Hx & Hy)
    (cmax & cids & _ & Hg & ->)%grow_cluster_Ok.
  unfold aligned. simpl. repeat split; try done.
  by rewrite (length_grow_cids _ _ _ _ Hg).
Qed.

Lemma gridding_aligned (pts : list RawPoint) (c : Config) (f1 : Frame) :
  gridding (Frame_init pts c) = Ok f1 →
  aligned f1
  ∧ n_points f1 = length (filter (λ p, invalid p = false) pts).
Proof.
  intros (th & xs & ys & -> & Hx & Hy)%gridding_Ok.
  apply length_mapM in Hx, Hy. simpl in Hx, Hy.
  rewrite length_zip_with, !length_fmap in Hx. rewrite !length_fmap in Hy.
  unfold aligned. simpl. rewrite !length_fmap, !length_replicate.
  repeat split; lia.
Qed.

(** X1.  The constructor keeps the returns that are not flagged invalid:
    after gridding, [n_points] is their number and every per-point array of
    the frame holds [n_points] entries; ground detection, clustering and
    cluster growing keep it so whenever they return. *)
Theorem pipeline_aligned (pts : list RawPoint) (c : Config) (f1 : Frame) :
  gridding (Frame_init pts c) = Ok f1 →
  n_points f1 = length (filter (λ p, invalid p = false) pts)
  ∧ aligned f1
  ∧ aligned (ground_detection f1)
  ∧ ∀ f2, clustering (ground_detection f1) = Ok f2 →
      aligned f2 ∧ ∀ f3, grow_cluster f2 = Ok f3 → aligned f3.
Proof.
  intros [Hal Hn]%gridding_aligned. split; [done |]. split; [done |].
  pose proof (ground_detection_aligned f1 Hal) as Hg. split; [done |].
  intros f2 Hc. pose proof (clustering_aligned _ _ Hg Hc) as Hc2.
  split; [done |]. intros f3. by apply grow_cluster_aligned.
Qed.

(** X18.  On a frame fresh from ground detection, [visualize] builds its two
    traces without an index error; no point is drawn both as ground and as
    above ground, so the two counts in the trace names add up to at most the
    number of points in the title. *)
Theorem visualize_after_ground (f : Frame) :
  length (pos f) = n_points f →
  let g := ground_detection f in
  (∀ i, ¬ (is_grd_mask g !! i = Some true ∧ abv_grd_mask g !! i = Some true))
  ∧ ∃ grd abv,
      visualize g
      = Some {| fig_data := [grd; abv]; fig_title_count := n_points f |}
      ∧ trace_count grd = mask_sum (is_grd_mask g)
      ∧ trace_count abv = mask_sum (abv_grd_mask g)
      ∧ trace_count grd + trace_count abv <= Z.of_nat (n_points f).
Proof.
  intros Hp g.
  destruct (ground_detection_lengths f) as (Hh & Hfl & _ & Hcfg).
  destruct (ground_detection_form f) as (h & fl & Hf).
  fold g in Hh, Hfl, Hcfg.
  assert (Hdis : ∀ i, ¬ (is_grd_mask g !! i = Some true
                         ∧ abv_grd_mask g !! i = Some true)).
  { intros i [Hg Ha]. unfold is_grd_mask, abv_grd_mask in Hg, Ha.
    rewrite list_lookup_fmap in Hg. rewrite list_lookup_fmap in Ha.
    destruct (flags g !! i) as [v|] eqn:Hv; [| done].
    destruct (h_arr g !! i) as [hv|] eqn:Hhv; [| done].
    simpl in Hg, Ha. injection Hg as Hg. injection Ha as Ha.
    apply Qgeb_le in Ha. rewrite Hcfg in Ha.
    pose proof (ground_flag_low f i v hv Hv Hg Hhv). lra. }
  assert (Hpos : pos g = pos f) by (unfold g; by rewrite Hf).
  assert (Hn : n_points g = n_points f) by (unfold g; by rewrite Hf).
  assert (Hl1 : length (is_grd_mask g) = n_points f)
    by (unfold is_grd_mask; by rewrite length_fmap, Hfl).
  assert (Hl2 : length (abv_grd_mask g) = n_points f)
    by (unfold abv_grd_mask; by rewrite length_fmap, Hh, Hp).
  split; [done |]. eexists _, _. split.
  - unfold visualize. rewrite Hl1, Hl2, Hpos, Hp, Hn, Nat.eqb_refl. simpl.
    reflexivity.
  - cbn [trace_count]. split; [done |]. split; [done |].
    apply mask_sum_disjoint; [lia | lia | done].
Qed.

(** X13.  After ground detection and clustering no point with the ground bit
    carries a cluster id; the same holds after cluster growing when
    [dz_local <= base_h_cut]. *)
Theorem ground_points_unclustered (f f2 : Frame) :
  clustering (ground_detection f) = Ok f2 →
  (∀ i v c, flags f2 !! i = Some v → has_ground v = true →
     cid_arr f2 !! i = Some c → c = 0)
  ∧ ∀ f3, grow_cluster f2 = Ok f3 →
      (dz_local (cfg f) <= base_h_cut (cfg f))%Q →
      ∀ i v c, flags f3 !! i = Some v → has_ground v = true →
        cid_arr f3 !! i = Some c → c = 0.
Proof.
  intros (r & _ & ->)%clustering_Ok.
  set (g := ground_detection f).
  destruct (ground_detection_lengths f) as (_ & _ & _ & Hcfg). fold g in Hcfg.
  set (cids2 := (sweep g _ _).1).
  assert (H2 : ∀ i v c, flags g !! i = Some v → has_ground v = true →
                 cids2 !! i = Some c → c = 0).
  { intros i v c Hv Hg Hc. destruct (decide (c = 0)) as [| Hne]; [done |].
    exfalso.
    pose proof (sweep_inv_sweep g (sweep_blocks r.1 r.2) _ (sweep_inv_init g))
      as (_ & _ & _ & Hband).
    apply (Hband i c Hc), lookup_h_cut_mask in Hne as (h & Hh & Hlo & _).
    rewrite Hcfg in Hlo.
    pose proof (ground_flag_low f i v h Hv Hg Hh). lra. }
  split; [exact H2 |].
  intros f3 (cmax & cids & _ & Hgrow & ->)%grow_cluster_Ok Hle i v c Hv Hg Hc.
  cbn [flags cid_arr set_cid_arr] in Hv, Hc, Hgrow.
  destruct (grow_cids_lookup _ _ _ _ _ _ Hgrow Hc) as [Hold | [_ Hl]];
    [by eapply H2 |].
  exfalso. apply in_some_layer_height in Hl as (h & Hh & _ & Hlo & _).
  cbn [h_arr set_cid_arr cfg] in Hh, Hlo. rewrite Hcfg in Hlo.
  pose proof (ground_flag_low f i v h Hv Hg Hh). lra.
Qed.
End Pipeline.

(** ** The further statements on the example data *)

Lemma pipeline_aligned_witness :
  @gridding demo_ext (@Frame_init demo_ext scene_pts scene_cfg)
  = Ok scene_frame
  ∧ n_points scene_frame = 11%nat
  ∧ aligned (@ground_detection demo_ext scene_frame).
Proof.
  assert (Hg : @gridding demo_ext (@Frame_init demo_ext scene_pts scene_cfg)
               = Ok scene_frame) by (vm_compute; reflexivity).
  split; [assumption |].
  destruct (@pipeline_aligned demo_ext scene_pts scene_cfg scene_frame Hg)
    as (Hn & _ & Hal & _).
  split; [rewrite Hn; reflexivity | exact Hal].
Defined.

Lemma visualize_after_ground_witness :
  length (pos scene_frame) = n_points scene_frame
  ∧ ∃ grd abv,
      visualize (@ground_detection demo_ext scene_frame)
      = Some {| fig_data := [grd; abv]; fig_title_count := 11 |}
      ∧ trace_count grd + trace_count abv <= 11.
Proof.
  assert (Hp : length (pos scene_frame) = n_points scene_frame)
    by reflexivity.
  split; [assumption |].
  destruct (@visualize_after_ground demo_ext scene_frame Hp)
    as (_ & grd & abv & Hv & _ & _ & Hle).
  exists grd, abv. split; [exact Hv | exact Hle].
Defined.

Lemma ground_points_unclustered_witness :
  clustering (@ground_detection demo_ext scene_frame) = Ok scene_clustered
  ∧ ∀ i v c, flags scene_clustered !! i = Some v → has_ground v = true →
      cid_arr scene_clustered !! i = Some c → c = 0.
Proof.
  assert (Hc : clustering (@ground_detection demo_ext scene_frame)
               = Ok scene_clustered) by (vm_compute; reflexivity).
  split; [assumption |].
  exact (proj1 (@ground_points_unclustered demo_ext scene_frame
                  scene_clustered Hc)).
Defined.

Lemma clustering_skips_last_bins_witness :
  clustering cluster_frame = Ok clustered_frame
  ∧ cid_arr clustered_frame !! 0%nat = Some 1
  ∧ ∃ x y xmin xmax ymin ymax,
      x_idx cluster_frame !! 0%nat = Some x
      ∧ y_idx cluster_frame !! 0%nat = Some y
      ∧ np_min (x_idx cluster_frame) = Some xmin
      ∧ np_max (x_idx cluster_frame) = Some xmax
      ∧ np_min (y_idx cluster_frame) = Some ymin
      ∧ np_max (y_idx cluster_frame) = Some ymax
      ∧ xmin <= x < xmax ∧ ymin <= y < ymax.
Proof.
  assert (Hc : clustering cluster_frame = Ok clustered_frame)
    by (vm_compute; reflexivity).
  assert (Hi : cid_arr clustered_frame !! 0%nat = Some 1) by reflexivity.
  do 2 (split; [assumption |]).
  apply (clustering_skips_last_bins cluster_frame clustered_frame 0%nat 1 Hc Hi).
  discriminate.
Defined.

Lemma dense_block_labelled_witness :
  aligned cluster_frame
  ∧ sweep_ranges cluster_frame = Ok ([1; 2; 3; 4], [1; 2])
  ∧ min_samples (cfg cluster_frame) <= mask_sum (in_grid_mask cluster_frame 1 1)
  ∧ in_grid_mask cluster_frame 1 1 !! 0%nat = Some true
  ∧ ∃ c, cid_arr clustered_frame !! 0%nat = Some c ∧ c ≠ 0.
Proof.
  assert (Ha : aligned cluster_frame) by (repeat split; reflexivity).
  assert (Hc : clustering cluster_frame = Ok clustered_frame)
    by (vm_compute; reflexivity).
  assert (Hr : sweep_ranges cluster_frame = Ok ([1; 2; 3; 4], [1; 2]))
    by (vm_compute; reflexivity).
  assert (Hn : (clustering_state cluster_frame [1; 2; 3; 4] [1; 2]).2
               <= 65536).
  { assert (He : (clustering_state cluster_frame [1; 2; 3; 4] [1; 2]).2 = 3)
      by (vm_compute; reflexivity).
    rewrite He. lia. }
  assert (Ho : min_samples (cfg cluster_frame)
               <= mask_sum (in_grid_mask cluster_frame 1 1)).
  { assert (He : mask_sum (in_grid_mask cluster_frame 1 1) = 2)
      by (vm_compute; reflexivity).
    rewrite He. simpl. lia. }
  assert (Hi : in_grid_mask cluster_frame 1 1 !! 0%nat = Some true)
    by (vm_compute; reflexivity).
  do 4 (split; [assumption |]).
  apply (dense_block_labelled cluster_frame clustered_frame
           [1; 2; 3; 4] [1; 2] 1 1 0%nat Ha Hc Hr Hn);
    [apply list_elem_of_here | apply list_elem_of_here | exact Ho | exact Hi].
Defined.

Lemma grow_cluster_ids_witness :
  grow_cluster clustered_frame
  = Ok (set_cid_arr clustered_frame [1; 1; 2; 2; 2; 0; 0])
  ∧ ∃ cmax, np_max (cid_arr clustered_frame) = Some cmax
      ∧ ∀ i c', [1; 1; 2; 2; 2; 0; 0] !! i = Some c' →
          cid_arr clustered_frame !! i = Some c' ∨ 1 <= c' <= cmax.
Proof.
  assert (Hg : grow_cluster clustered_frame
               = Ok (set_cid_arr clustered_frame [1; 1; 2; 2; 2; 0; 0]))
    by (vm_compute; reflexivity).
  split; [assumption |].
  destruct (grow_cluster_ids clustered_frame _ Hg)
    as (cmax & Hmax & _ & Hids & _).
  exists cmax. split; [exact Hmax | exact Hids].
Defined.

Lemma grow_cluster_height_range_witness :
  grow_cluster clustered_frame
  = Ok (set_cid_arr clustered_frame [1; 1; 2; 2; 2; 0; 0])
  ∧ cid_arr clustered_frame !! 4%nat = Some 0
  ∧ ∃ h, h_arr clustered_frame !! 4%nat = Some h
      ∧ (0 < h_grid_size (cfg clustered_frame))%Q
      ∧ (base_h_cut (cfg clustered_frame) <= h)%Q
      ∧ (h < h_max_cut (cfg clustered_frame)
             + h_grid_size (cfg clustered_frame))%Q.
Proof.
  assert (Hg : grow_cluster clustered_frame
               = Ok (set_cid_arr clustered_frame [1; 1; 2; 2; 2; 0; 0]))
    by (vm_compute; reflexivity).
  assert (H0 : cid_arr clustered_frame !! 4%nat = Some 0) by reflexivity.
  do 2 (split; [assumption |]).
  apply (grow_cluster_height_range clustered_frame _ 4%nat 2 Hg);
    [reflexivity | rewrite H0; discriminate].
Defined.

Lemma grow_cluster_no_seeds_witness :
  clustering low_frame = Ok low_frame
  ∧ np_max (cid_arr low_frame) = Some 2
  ∧ grow_cluster low_frame = Ok (set_cid_arr low_frame (cid_arr low_frame)).
Proof.
  assert (Hc : clustering low_frame = Ok low_frame)
    by (vm_compute; reflexivity).
  assert (Hm : np_max (cid_arr low_frame) = Some 2) by reflexivity.
  do 2 (split; [assumption |]).
  apply (grow_cluster_no_seeds low_frame 2 Hm).
  intros cid i Hcid.
  assert (Hcases : cid = 1 ∨ cid = 2) by lia.
  destruct Hcases as [-> | ->];
    do 8 (destruct i as [|i]; [vm_compute; discriminate |]);
    vm_compute; discriminate.
Defined.

Lemma grow_cluster_zero_step_witness :
  (h_grid_size (cfg zero_step_frame) == 0)%Q
  ∧ np_max (cid_arr zero_step_frame) = Some 2
  ∧ seeds_mask zero_step_frame (cid_arr zero_step_frame) 1 !! 0%nat
    = Some true
  ∧ grow_cluster zero_step_frame = Error ZeroStep.
Proof.
  assert (Hz : (h_grid_size (cfg zero_step_frame) == 0)%Q) by reflexivity.
  assert (Hm : np_max (cid_arr zero_step_frame) = Some 2) by reflexivity.
  assert (Hs : seeds_mask zero_step_frame (cid_arr zero_step_frame) 1 !! 0%nat
               = Some true) by (vm_compute; reflexivity).
  do 3 (split; [assumption |]).
  apply (grow_cluster_zero_step zero_step_frame 2 Hz Hm).
  exists 1, 0%nat. split; [lia | exact Hs].
Defined.

Lemma ground_flags_binary_witness :
  flags (@ground_detection demo_ext demo_frame3) !! 0%nat = Some 2
  ∧ (2 = 0 ∨ 2 = _IS_GROUND).
Proof.
  assert (Hv : flags (@ground_detection demo_ext demo_frame3) !! 0%nat = Some 2)
    by (vm_compute; reflexivity).
  split; [assumption |].
  exact (@ground_flags_binary demo_ext demo_frame3 0%nat 2 Hv).
Defined.

Lemma ground_flag_below_dz_local_witness :
  flags (@ground_detection demo_ext demo_frame3) !! 0%nat = Some 2
  ∧ has_ground 2 = true
  ∧ h_arr (@ground_detection demo_ext demo_frame3) !! 0%nat = Some 0%Q
  ∧ (0 < dz_local (cfg demo_frame3))%Q.
Proof.
  assert (Hv : flags (@ground_detection demo_ext demo_frame3) !! 0%nat = Some 2)
    by (vm_compute; reflexivity).
  assert (Hg : has_ground 2 = true) by reflexivity.
  assert (Hh : h_arr (@ground_detection demo_ext demo_frame3) !! 0%nat
               = Some 0%Q) by (vm_compute; reflexivity).
  do 3 (split; [assumption |]).
  exact (@ground_flag_below_dz_local demo_ext demo_frame3 0%nat 2 0%Q Hv Hg Hh).
Defined.

Lemma unrefinable_point_keeps_global_witness :
  x_idx demo_frame3 !! 6%nat = Some 3 ∧ y_idx demo_frame3 !! 6%nat = Some 4
  ∧ ¬ refinable demo_frame3 3 4
  ∧ h_arr (@ground_detection demo_ext demo_frame3) !! 6%nat
    = h_arr (@ground_detection_global demo_ext demo_frame3) !! 6%nat.
Proof.
  assert (Hno : ¬ refinable demo_frame3 3 4).
  { intros (_ & _ & Hc). vm_compute in Hc. apply Hc. reflexivity. }
  do 2 (split; [reflexivity |]). split; [assumption |].
  apply (@unrefinable_point_keeps_global demo_ext demo_frame3 6%nat).
  intros x y Hx Hy. injection Hx as <-. injection Hy as <-. exact Hno.
Defined.

Lemma candidate_tolerance_witness :
  pos demo_frame3 !! 4%nat = Some (0, 2, -2)%Q
  ∧ distXY demo_frame3 !! 4%nat = Some 2%Q
  ∧ (dz_local (cfg demo_frame3) <= dz_global (cfg demo_frame3))%Q
  ∧ (Qabs (-2 + 2) < dz_local (cfg demo_frame3))%Q
  ∧ 4%nat ∈ grd_candidates demo_frame3
  ∧ (Qabs (-2 + 2) < dz_global (cfg demo_frame3))%Q.
Proof.
  assert (Hp : pos demo_frame3 !! 4%nat = Some (0, 2, -2)%Q) by reflexivity.
  assert (Hd : distXY demo_frame3 !! 4%nat = Some 2%Q) by reflexivity.
  assert (Hle : (dz_local (cfg demo_frame3) <= dz_global (cfg demo_frame3))%Q)
    by (vm_compute; discriminate).
  assert (Hlo : (Qabs (-2 + 2) < dz_local (cfg demo_frame3))%Q)
    by (vm_compute; reflexivity).
  do 4 (split; [assumption |]).
  destruct (candidate_tolerance demo_frame3 4%nat _ _ Hp Hd) as [Hc Hl].
  assert (Hin : 4%nat ∈ grd_candidates demo_frame3) by exact (Hl Hle Hlo).
  split; [exact Hin | exact (Hc Hin)].
Defined.

Lemma grid_bins_cells_witness :
  -32768 <= 2 <= 32767
  ∧ (range_bin near_cfg 7 = Some 2
     ↔ bin_cell (min_dist near_cfg) (dist_grid_size near_cfg) 7 2).
Proof.
  assert (Hk : -32768 <= 2 <= 32767) by lia.
  split; [assumption |].
  destruct (@grid_bins_cells demo_ext near_cfg 2 Hk) as [Hr _].
  apply Hr. vm_compute. reflexivity.
Defined.

Lemma gridding_zero_cell_size_witness :
  pos zero_cell_frame !! 0%nat = Some (1, 0, -2)%Q
  ∧ distXY zero_cell_frame !! 0%nat = Some 1%Q
  ∧ (dist_grid_size (cfg zero_cell_frame) == 0)%Q
  ∧ @gridding demo_ext zero_cell_frame = Error UndefinedCast.
Proof.
  assert (Hp : pos zero_cell_frame !! 0%nat = Some (1, 0, -2)%Q)
    by reflexivity.
  assert (Hd : distXY zero_cell_frame !! 0%nat = Some 1%Q) by reflexivity.
  assert (Hz : (dist_grid_size (cfg zero_cell_frame) == 0)%Q) by reflexivity.
  do 3 (split; [assumption |]).
  exact (@gridding_zero_cell_size demo_ext zero_cell_frame 0%nat _ _ Hp Hd
           (or_introl Hz)).
Defined.
